(** * Event stream and pagination storage of the homeserver

    A shallow embedding of [synapse/storage/stream.py] (the [StreamStore]
    read operations, the bound builders [lower_bound] / [upper_bound] and the
    annotator [_set_before_and_after]) and of the lazy dependency accessors
    of [synapse/server.py] ([_make_dependency_method]).

    Python integers are [Z], strings are [string], dictionaries are [gmap],
    [None]-able values are [option].  The relational store is a list of
    rows; the mutable [internal_metadata] of the event objects is a heap
    keyed by the identity of the event object. *)

From Stdlib Require Import ZArith String Ascii List Lia.
From stdpp Require Import base option list gmap strings sorting pretty.

Local Open Scope string_scope.
Local Open Scope Z_scope.

(** ** Exceptions *)

Inductive exn : Type :=
  | SynapseError (code : Z) (msg : string)
  | StoreError (code : Z) (msg : string)
  | ValueError (msg : string)
  | KeyError (key : string)
  | NotImplementedError (msg : string)
  | BuilderError (msg : string).

(** ** Room stream tokens ([synapse.types.RoomStreamToken]) *)

Record RoomStreamToken : Type := mkToken {
  topological : option Z;
  stream : Z
}.

Definition digit_of (c : ascii) : option Z :=
  let n := Z.of_nat (nat_of_ascii c) in
  if (48 <=? n) && (n <=? 57) then Some (n - 48) else None.

Fixpoint parse_digits (acc : Z) (s : string) : option Z :=
  match s with
  | EmptyString => Some acc
  | String c s' =>
      match digit_of c with
      | Some d => parse_digits (10 * acc + d) s'
      | None => None
      end
  end.

(** A signed decimal integer: an optional minus sign and at least one digit. *)
Definition parse_int (s : string) : option Z :=
  match s with
  | EmptyString => None
  | String "-" EmptyString => None
  | String "-" ds => Z.opp <$> parse_digits 0 ds
  | _ => parse_digits 0 s
  end.

(** Splits [a-b] at the first dash that is not the sign of [a]. *)
Fixpoint split_dash (acc : string) (s : string) : option (string * string) :=
  match s with
  | EmptyString => None
  | String c s' =>
      if (Ascii.eqb c "-") && negb (String.eqb acc "")
      then Some (acc, s')
      else split_dash (acc +:+ String c EmptyString) s'
  end.

(** Modelled from the spec: [RoomStreamToken.parse] of [synapse.types], which
    is not among the sources.  It accepts [s{n}] or [t{a}-{b}] with signed
    decimal integers and fails with an invalid-token error otherwise. *)
Definition parse (text : string) : exn + RoomStreamToken :=
  let invalid := inl (SynapseError 400 ("Invalid token " +:+ text)) in
  match text with
  | String "s" n =>
      match parse_int n with
      | Some s => inr (mkToken None s)
      | None => invalid
      end
  | String "t" ab =>
      match split_dash "" ab with
      | Some (a, b) =>
          match parse_int a, parse_int b with
          | Some t, Some s => inr (mkToken (Some t) s)
          | _, _ => invalid
          end
      | None => invalid
      end
  | _ => invalid
  end.

(** Modelled from the spec: [RoomStreamToken.parse_stream_token]; as [parse],
    and on [t{a}-{b}] it yields the token whose stream part is [b] and whose
    topological part is [a]; callers take the stream part. *)
Definition parse_stream_token (text : string) : exn + RoomStreamToken :=
  parse text.

(** Modelled from the spec: [RoomStreamToken.__str__], [s{s}] for a stream
    token and [t{t}-{s}] for a topological one. *)
Definition token_str (tok : RoomStreamToken) : string :=
  match topological tok with
  | Some t => "t" +:+ pretty t +:+ "-" +:+ pretty (stream tok)
  | None => "s" +:+ pretty (stream tok)
  end.

(** ** SQL bound expressions

    [lower_bound] and [upper_bound] build a fragment of SQL text.  The
    fragment is kept as a syntax tree whose constructors follow the format
    strings of the source; [render] gives back the text and [eval_cond] is
    the meaning of the fragment on one row of the [events] table. *)

Inductive column : Type := stream_ordering_col | topological_ordering_col.

Inductive cmp_op : Type := OpLt | OpGt | OpGe | OpEq.

Inductive sql_cond : Type :=
  | Cmp (n : Z) (op : cmp_op) (c : column)      (* "%d <op> %s" *)
  | SqlAnd (a b : sql_cond)                      (* "%s AND %s" *)
  | SqlOr (a b : sql_cond)                       (* "%s OR %s" *)
  | Paren (a : sql_cond).                        (* "(%s)" *)

Definition column_name (c : column) : string :=
  match c with
  | stream_ordering_col => "stream_ordering"
  | topological_ordering_col => "topological_ordering"
  end.

Definition op_text (op : cmp_op) : string :=
  match op with
  | OpLt => "<" | OpGt => ">" | OpGe => ">=" | OpEq => "="
  end.

Fixpoint render (e : sql_cond) : string :=
  match e with
  | Cmp n op c => pretty n +:+ " " +:+ op_text op +:+ " " +:+ column_name c
  | SqlAnd a b => render a +:+ " AND " +:+ render b
  | SqlOr a b => render a +:+ " OR " +:+ render b
  | Paren a => "(" +:+ render a +:+ ")"
  end.

Definition lower_bound (token : RoomStreamToken) : sql_cond :=
  match topological token with
  | None => Paren (Cmp (stream token) OpLt stream_ordering_col)
  | Some t =>
      Paren (SqlOr (Cmp t OpLt topological_ordering_col)
                   (Paren (SqlAnd (Cmp t OpEq topological_ordering_col)
                                  (Cmp (stream token) OpLt stream_ordering_col))))
  end.

Definition upper_bound (token : RoomStreamToken) : sql_cond :=
  match topological token with
  | None => Paren (Cmp (stream token) OpGe stream_ordering_col)
  | Some t =>
      Paren (SqlOr (Cmp t OpGt topological_ordering_col)
                   (Paren (SqlAnd (Cmp t OpEq topological_ordering_col)
                                  (Cmp (stream token) OpGe stream_ordering_col))))
  end.

(** ** The [events] table *)

(** One row of [events], left-joined with [state_events] for [state_key].
    The event object that the event store materialises for a row carries the
    same immutable fields, so one record serves for both. *)
Record EventRow : Type := mkEvent {
  event_id : string;
  room_id : string;
  etype : string;
  state_key : option string;
  outlier : bool;
  stream_ordering : Z;
  topological_ordering : Z;
  depth : Z
}.

Definition column_value (c : column) (r : EventRow) : Z :=
  match c with
  | stream_ordering_col => stream_ordering r
  | topological_ordering_col => topological_ordering r
  end.

Definition eval_op (op : cmp_op) (n v : Z) : bool :=
  match op with
  | OpLt => n <? v
  | OpGt => n >? v
  | OpGe => n >=? v
  | OpEq => n =? v
  end.

Fixpoint eval_cond (e : sql_cond) (r : EventRow) : bool :=
  match e with
  | Cmp n op c => eval_op op n (column_value c r)
  | SqlAnd a b => eval_cond a r && eval_cond b r
  | SqlOr a b => eval_cond a r || eval_cond b r
  | Paren a => eval_cond a r
  end.

(** ORDER BY: the two sort keys of the source and the two directions.  Rows
    that compare equal are left in the order the merge sort gives them. *)
Inductive sort_order : Type := ASC | DESC.

Definition by_stream : relation EventRow :=
  fun a b => stream_ordering a <= stream_ordering b.

Definition by_composite : relation EventRow :=
  fun a b =>
    topological_ordering a < topological_ordering b
    \/ (topological_ordering a = topological_ordering b
        /\ stream_ordering a <= stream_ordering b).

Definition directed (o : sort_order) (R : relation EventRow) : relation EventRow :=
  match o with
  | ASC => R
  | DESC => flip R
  end.

#[global] Instance by_stream_dec : RelDecision by_stream.
Proof. intros a b. unfold by_stream. apply _. Defined.

#[global] Instance by_composite_dec : RelDecision by_composite.
Proof. intros a b. unfold by_composite. apply _. Defined.

#[global] Instance directed_dec (o : sort_order) (R : relation EventRow)
  `{!RelDecision R} : RelDecision (directed o R).
Proof. destruct o; unfold directed, flip; intros a b; apply _. Defined.

Definition order_by (R : relation EventRow) `{!RelDecision R} (o : sort_order)
  (rows : list EventRow) : list EventRow :=
  merge_sort (directed o R) rows.

(** LIMIT n.  A negative limit is no limit at all, as in SQLite. *)
Definition sql_limit {A : Type} (n : Z) (rows : list A) : list A :=
  if n <? 0 then rows else take (Z.to_nat n) rows.

(** Python's [min] and [max] over a generator of integers; only called on
    a list that is not empty. *)
Definition py_min (xs : list Z) : Z :=
  match xs with
  | [] => 0
  | x :: xs' => fold_left Z.min xs' x
  end.

Definition py_max (xs : list Z) : Z :=
  match xs with
  | [] => 0
  | x :: xs' => fold_left Z.max xs' x
  end.

(** Truthiness of an optional string: [None] and the empty string are false. *)
Definition truthy (s : option string) : bool :=
  match s with
  | Some (String _ _) => true
  | _ => false
  end.

(** ** Event objects, their mutable metadata, and effects *)

(** The three attributes that [_set_before_and_after] writes on
    [event.internal_metadata]. *)
Record InternalMetadata : Type := mkMeta {
  before : string;
  after : string;
  order : Z * Z
}.

(** What a read operation does to the outside: a question to a stream
    change cache, a database interaction, a fetch from the event store. *)
Inductive Effect : Type :=
  | CacheHasEntityChanged (entity : string) (stream_pos : Z)
  | RunInteraction (desc : string)
  | GetEvents (event_ids : list string).

(** The mutable part of the process: the [internal_metadata] of the event
    objects, keyed by the event object (the event cache keeps one object per
    event id), and the effects performed so far, oldest first. *)
Record world : Type := mkWorld {
  metadata : gmap string InternalMetadata;
  effects : list Effect
}.

Inductive result (A : Type) : Type :=
  | Return (a : A)
  | Raise (e : exn).
Arguments Return {A} a.
Arguments Raise {A} e.

Definition M (A : Type) : Type := world -> result A * world.

Definition ret {A : Type} (a : A) : M A := fun w => (Return a, w).

Definition raise {A : Type} (e : exn) : M A := fun w => (Raise e, w).

Definition bind {A B : Type} (m : M A) (k : A -> M B) : M B :=
  fun w =>
    match m w with
    | (Return a, w') => k a w'
    | (Raise e, w') => (Raise e, w')
    end.

Notation "x <~ m ;; k" := (bind m (fun x => k))
  (at level 100, m at next level, right associativity).

Definition perform (e : Effect) : M unit :=
  fun w => (Return tt, mkWorld (metadata w) (effects w ++ [e])).

Definition modify_metadata
  (f : gmap string InternalMetadata -> gmap string InternalMetadata) : M unit :=
  fun w => (Return tt, mkWorld (f (metadata w)) (effects w)).

Definition lift {A : Type} (r : exn + A) : M A :=
  match r with
  | inl e => raise e
  | inr a => ret a
  end.

(** ** The annotator *)

Definition annotation (topo_order : bool) (event row : EventRow) : InternalMetadata :=
  let stream := stream_ordering row in
  let topo := if topo_order then Some (depth event) else None in
  {| before := token_str (mkToken topo (stream - 1));
     after := token_str (mkToken topo stream);
     order := (match topo with
               | Some t => if t =? 0 then 0 else t
               | None => 0
               end, stream) |}.

(** [for event, row in zip(events, rows)]: the pairs are visited left to
    right and each visit overwrites the three attributes of its event. *)
Definition _set_before_and_after (events rows : list EventRow) (topo_order : bool)
  (h : gmap string InternalMetadata) : gmap string InternalMetadata :=
  fold_left (fun h er => <[event_id er.1 := annotation topo_order er.1 er.2]> h)
            (zip events rows) h.

(** ** The stream store *)

Definition MAX_STREAM_SIZE : Z := 1000.

(** An application service as the store sees it: the ids of the rooms that
    [_get_app_service_rooms_txn] finds for it, and its user-interest test,
    which is asked about the [state_key] of a membership row (NULL, here
    [None], when the LEFT JOIN found no state row). *)
Record ApplicationService : Type := mkService {
  room_ids_for_as : list string;
  is_interested_in_user : option string -> bool
}.

Record EventsAround : Type := mkAround {
  events_before : list EventRow;
  events_after : list EventRow;
  start_token : string;
  end_token : string
}.

Section StreamStore.

(** The [events] table and the answers of [_events_stream_cache]. *)
Variable events_table : list EventRow.
Variable has_entity_changed : string -> Z -> bool.

Definition fetch_event (i : string) : option EventRow :=
  List.find (fun r => String.eqb (event_id r) i) events_table.

(** Modelled from the spec: the event store's [fetch(event_ids, ...)],
    [_get_events_txn] of [synapse/storage/events.py], which is not among
    the sources.  It gives the event of each id, in the order of the ids;
    an id with no event gives nothing. *)
Definition _get_events_txn (event_ids : list string) : list EventRow :=
  omap fetch_event event_ids.

Definition _get_events (event_ids : list string) : M (list EventRow) :=
  _ <~ perform (GetEvents event_ids) ;;
  ret (_get_events_txn event_ids).

(** *** get_room_events_stream_for_room *)

(** SELECT event_id, stream_ordering FROM events WHERE room_id = ?
    AND not outlier AND stream_ordering > ? AND stream_ordering <= ?
    ORDER BY stream_ordering %s LIMIT ? *)
Definition stream_rows (room : string) (from_id to_id limit : Z)
  (order : sort_order) : list EventRow :=
  sql_limit limit
    (order_by by_stream order
       (List.filter
          (fun r => String.eqb (room_id r) room && negb (outlier r)
                    && (stream_ordering r >? from_id)
                    && (stream_ordering r <=? to_id))
          events_table)).

(** SELECT event_id, stream_ordering FROM events WHERE room_id = ?
    AND not outlier AND stream_ordering <= ?
    ORDER BY topological_ordering %s, stream_ordering %s LIMIT ? *)
Definition topological_rows (room : string) (to_id limit : Z)
  (order : sort_order) : list EventRow :=
  sql_limit limit
    (order_by by_composite order
       (List.filter
          (fun r => String.eqb (room_id r) room && negb (outlier r)
                    && (stream_ordering r <=? to_id))
          events_table)).

Definition get_room_events_stream_for_room (room : string)
  (from_key : option string) (to_key : string) (limit : Z)
  (order : sort_order) : M (list EventRow * option string) :=
  from_id <~ match from_key with
             | Some k => t <~ lift (parse_stream_token k) ;; ret (Some (stream t))
             | None => ret None
             end ;;
  to_tok <~ lift (parse_stream_token to_key) ;;
  let to_id := stream to_tok in
  if bool_decide (from_key = Some to_key) then ret ([], from_key) else
  (* if from_id: a from_id that is None or 0 skips the cache *)
  has_changed <~ match from_id with
                 | Some f =>
                     if f =? 0 then ret true
                     else _ <~ perform (CacheHasEntityChanged room f) ;;
                          ret (has_entity_changed room f)
                 | None => ret true
                 end ;;
  if negb has_changed then ret ([], from_key) else
  _ <~ perform (RunInteraction "get_room_events_stream_for_room") ;;
  let rows := match from_id with
              | Some f => stream_rows room f to_id limit order
              | None => topological_rows room to_id limit order
              end in
  evs <~ _get_events (event_id <$> rows) ;;
  _ <~ modify_metadata
         (_set_before_and_after evs rows
            (match from_id with None => true | Some _ => false end)) ;;
  let evs := match order with DESC => reverse evs | ASC => evs end in
  let key := match rows with
             | [] => from_key
             | _ :: _ => Some ("s" +:+ pretty (py_min (stream_ordering <$> rows)))
             end in
  ret (evs, key).

(** *** paginate_room_events *)

(** SELECT * FROM events WHERE outlier = ? AND room_id = ? AND %(bounds)s
    ORDER BY topological_ordering %(order)s, stream_ordering %(order)s
    %(limit)s, with [False] bound to the first parameter; the LIMIT clause
    is there only for a positive limit. *)
Definition paginate_rows (room : string) (bounds : sql_cond)
  (order : sort_order) (limit : Z) : list EventRow :=
  let sorted :=
    order_by by_composite order
      (List.filter
         (fun r => Bool.eqb (outlier r) false && String.eqb (room_id r) room
                   && eval_cond bounds r)
         events_table) in
  if limit >? 0 then sql_limit limit sorted else sorted.

Definition paginate_room_events (room : string) (from_key : string)
  (to_key : option string) (direction : string) (limit : Z)
  : M (list EventRow * string) :=
  let backwards := String.eqb direction "b" in
  let order := if backwards then DESC else ASC in
  from_tok <~ lift (parse from_key) ;;
  bounds <~ match to_key with
            | Some (String _ _ as k) =>
                to_tok <~ lift (parse k) ;;
                ret (if backwards
                     then SqlAnd (upper_bound from_tok) (lower_bound to_tok)
                     else SqlAnd (lower_bound from_tok) (upper_bound to_tok))
            | _ =>
                ret (if backwards then upper_bound from_tok
                     else lower_bound from_tok)
            end ;;
  _ <~ perform (RunInteraction "paginate_room_events") ;;
  let rows := paginate_rows room bounds order limit in
  let next_token :=
    match last rows with
    | Some r =>
        let topo := topological_ordering r in
        let toke := stream_ordering r in
        let toke := if backwards then toke - 1 else toke in
        token_str (mkToken (Some topo) toke)
    | None => if truthy to_key then default "" to_key else from_key
    end in
  events <~ _get_events (event_id <$> rows) ;;
  _ <~ modify_metadata (_set_before_and_after events rows true) ;;
  ret (events, next_token).

(** *** get_appservice_room_stream *)

(** SELECT e.event_id, e.room_id, e.type, s.state_key, e.stream_ordering
    FROM events AS e LEFT JOIN state_events as s ON e.event_id = s.event_id
    WHERE e.stream_ordering > ? AND e.stream_ordering <= ?
    ORDER BY stream_ordering ASC LIMIT %(limit)d *)
Definition appservice_rows (from_id to_id limit : Z) : list EventRow :=
  sql_limit limit
    (order_by by_stream ASC
       (List.filter
          (fun r => (stream_ordering r >? from_id) && (stream_ordering r <=? to_id))
          events_table)).

Definition app_service_interested (service : ApplicationService)
  (row : EventRow) : bool :=
  if existsb (String.eqb (room_id row)) (room_ids_for_as service) then true
  else if String.eqb (etype row) "m.room.member"
       then (if is_interested_in_user service (state_key row) then true else false)
       else false.

Definition get_appservice_room_stream (service : ApplicationService)
  (from_key to_key : string) (limit : Z) : M (list EventRow * string) :=
  let limit := if limit =? 0 then MAX_STREAM_SIZE
               else Z.max limit MAX_STREAM_SIZE in
  from_id <~ lift (parse_stream_token from_key) ;;
  to_id <~ lift (parse_stream_token to_key) ;;
  if String.eqb from_key to_key then ret ([], to_key) else
  _ <~ perform (RunInteraction "get_appservice_room_stream") ;;
  let rows := appservice_rows (stream from_id) (stream to_id) limit in
  let evs :=
    _get_events_txn
      (event_id <$> List.filter (app_service_interested service) rows) in
  _ <~ modify_metadata (_set_before_and_after evs rows true) ;;
  let key := match rows with
             | [] => to_key
             | _ :: _ => "s" +:+ pretty (py_max (stream_ordering <$> rows))
             end in
  ret (evs, key).

(** *** get_recent_events_for_room *)

(** SELECT stream_ordering, topological_ordering, event_id FROM events
    WHERE room_id = ? [AND stream_ordering > ?] AND stream_ordering <= ?
    AND outlier = ?
    ORDER BY topological_ordering DESC, stream_ordering DESC LIMIT ? *)
Definition recent_rows (room : string) (from_id : option Z) (end_id limit : Z)
  : list EventRow :=
  sql_limit limit
    (order_by by_composite DESC
       (List.filter
          (fun r => String.eqb (room_id r) room
                    && match from_id with
                       | Some f => stream_ordering r >? f
                       | None => true
                       end
                    && (stream_ordering r <=? end_id)
                    && Bool.eqb (outlier r) false)
          events_table)).

(** The memoisation of [@cached(num_args=4)] is left out: the table does
    not change during a read. *)
Definition get_recent_event_ids_for_room (room : string) (limit : Z)
  (end_token : string) (from_token : option string)
  : M (list EventRow * (string * string)) :=
  end_tok <~ lift (parse_stream_token end_token) ;;
  from_id <~ match from_token with
             | None => ret None
             | Some k => t <~ lift (parse_stream_token k) ;; ret (Some (stream t))
             end ;;
  _ <~ perform (RunInteraction "get_recent_events_for_room") ;;
  let rows := reverse (recent_rows room from_id (stream end_tok) limit) in
  let token :=
    match rows with
    | r :: _ =>
        let topo := topological_ordering r in
        let toke := stream_ordering r - 1 in
        (token_str (mkToken (Some topo) toke), token_str end_tok)
    | [] => (token_str end_tok, token_str end_tok)
    end in
  ret (rows, token).

Definition get_recent_events_for_room (room : string) (limit : Z)
  (end_token : string) (from_token : option string)
  : M (list EventRow * (string * string)) :=
  rt <~ get_recent_event_ids_for_room room limit end_token from_token ;;
  events <~ _get_events (event_id <$> rt.1) ;;
  _ <~ modify_metadata (_set_before_and_after events rt.1 true) ;;
  ret (events, rt.2).

(** *** get_events_around *)

(** SELECT topological_ordering, stream_ordering, event_id FROM events
    WHERE room_id = ? AND (topological_ordering < ?
    OR (topological_ordering = ? AND stream_ordering < ?))
    ORDER BY topological_ordering DESC, stream_ordering DESC LIMIT ? *)
Definition query_before (room : string) (topo strm limit : Z) : list EventRow :=
  sql_limit limit
    (order_by by_composite DESC
       (List.filter
          (fun r => String.eqb (room_id r) room
                    && ((topological_ordering r <? topo)
                        || ((topological_ordering r =? topo)
                            && (stream_ordering r <? strm))))
          events_table)).

(** The same with [>] for [<] and ASC for DESC. *)
Definition query_after (room : string) (topo strm limit : Z) : list EventRow :=
  sql_limit limit
    (order_by by_composite ASC
       (List.filter
          (fun r => String.eqb (room_id r) room
                    && ((topological_ordering r >? topo)
                        || ((topological_ordering r =? topo)
                            && (stream_ordering r >? strm))))
          events_table)).

(** Modelled from the spec: [_simple_select_one_txn] of
    [synapse/storage/_base.py], which is not among the sources; it looks
    up the one row with the given key values and fails when there is
    none. *)
Definition _simple_select_one_txn (room event : string) : exn + EventRow :=
  match List.find (fun r => String.eqb (event_id r) event
                            && String.eqb (room_id r) room) events_table with
  | Some r => inr r
  | None => inl (StoreError 404 "No row found")
  end.

Definition _get_events_around_txn (room event : string)
  (before_limit after_limit : Z)
  : exn + ((list string * string) * (list string * string)) :=
  match _simple_select_one_txn room event with
  | inl e => inl e
  | inr results =>
      let strm := stream_ordering results in
      let topo := topological_ordering results in
      let rows := query_before room topo strm before_limit in
      let before_ids := event_id <$> rows in
      let start :=
        match rows with
        | r :: _ =>
            token_str (mkToken (Some (topological_ordering r))
                               (stream_ordering r - 1))
        | [] => token_str (mkToken (Some topo) (strm - 1))
        end in
      let rows := query_after room topo strm after_limit in
      let after_ids := event_id <$> rows in
      let end_ :=
        match last rows with
        | Some r =>
            token_str (mkToken (Some (topological_ordering r))
                               (stream_ordering r))
        | None => token_str (mkToken (Some topo) strm)
        end in
      inr ((before_ids, start), (after_ids, end_))
  end.

Definition get_events_around (room event : string)
  (before_limit after_limit : Z) : M EventsAround :=
  _ <~ perform (RunInteraction "get_events_around") ;;
  results <~ lift (_get_events_around_txn room event before_limit after_limit) ;;
  evs_before <~ _get_events results.1.1 ;;
  evs_after <~ _get_events results.2.1 ;;
  ret (mkAround evs_before evs_after results.1.2 results.2.2).

End StreamStore.



(** ** The dependency accessors of the home server *)

Module Server.

Inductive outcome (V : Type) : Type :=
  | Done (v : V)
  | Failed (e : exn)
  | OutOfFuel.
Arguments Done {V} v.
Arguments Failed {V} e.
Arguments OutOfFuel {V}.

(** The attributes set on the [HomeServer] object and its [_building]
    dictionary. *)
Record HomeServer (V : Type) : Type := mkHS {
  attrs : gmap string V;
  _building : gmap string Z
}.
Arguments mkHS {V} attrs _building.
Arguments attrs {V} h.
Arguments _building {V} h.

Section Dependencies.

Variable V : Type.

(** A [build_DEPENDENCY] method: code that runs on the home server and
    may call any of the [get_DEPENDENCY] accessors, which it receives
    as its first argument. *)
Definition builder : Type :=
  (string -> HomeServer V -> outcome V * HomeServer V) ->
  HomeServer V -> outcome V * HomeServer V.

(** [getattr(hs, "build_%s" % depname)] of the class at hand, and the name
    of that class. *)
Variable builders : string -> option builder.
Variable class_name : string.

Definition setattr (hs : HomeServer V) (name : string) (v : V) : HomeServer V :=
  mkHS (<[name := v]> (attrs hs)) (_building hs).

Definition mark (hs : HomeServer V) (depname : string) : HomeServer V :=
  mkHS (attrs hs) (<[depname := 1]> (_building hs)).

Definition unmark (hs : HomeServer V) (depname : string) : HomeServer V :=
  mkHS (attrs hs) (delete depname (_building hs)).

Definition cyclic (depname : string) : exn :=
  ValueError ("Cyclic dependency while building " +:+ depname).

Definition no_builder (depname : string) : exn :=
  NotImplementedError
    (class_name +:+ " has no " +:+ depname +:+ " nor a builder for it").

(** The accessor [_get] that [_make_dependency_method depname] installs
    as [get_<depname>].  The fuel bounds the nesting of accessor calls. *)
Fixpoint _get (fuel : nat) (depname : string) (hs : HomeServer V)
  : outcome V * HomeServer V :=
  match fuel with
  | O => (OutOfFuel, hs)
  | S fuel' =>
      match attrs hs !! depname with
      | Some v => (Done v, hs)
      | None =>
          match builders depname with
          | Some build =>
              match _building hs !! depname with
              | Some _ => (Failed (cyclic depname), hs)
              | None =>
                  match build (_get fuel') (mark hs depname) with
                  | (Done dep, hs') =>
                      let hs' := setattr hs' depname dep in
                      (* del hs._building[depname] *)
                      match _building hs' !! depname with
                      | Some _ => (Done dep, unmark hs' depname)
                      | None => (Failed (KeyError depname), hs')
                      end
                  | (other, hs') => (other, hs')
                  end
              end
          | None => (Failed (no_builder depname), hs)
          end
      end
  end.

End Dependencies.

Arguments _get {V} builders class_name fuel depname hs.
Arguments mark {V} hs depname.
Arguments unmark {V} hs depname.
Arguments setattr {V} hs name v.

End Server.

(** ** Vocabulary of the specification *)

(** The composite position of a row and the two comparisons of positions. *)
Definition position (r : EventRow) : Z * Z :=
  (topological_ordering r, stream_ordering r).

Definition lex_lt (a b : Z * Z) : Prop :=
  a.1 < b.1 \/ (a.1 = b.1 /\ a.2 < b.2).

Definition lex_le (a b : Z * Z) : Prop :=
  a.1 < b.1 \/ (a.1 = b.1 /\ a.2 <= b.2).

(** A row strictly greater than token T, in the words of the specification. *)
Definition strictly_after (T : RoomStreamToken) (r : EventRow) : Prop :=
  match topological T with
  | None => stream T < stream_ordering r
  | Some t => lex_lt (t, stream T) (position r)
  end.

(** A row less than or equal to token T. *)
Definition at_or_before (T : RoomStreamToken) (r : EventRow) : Prop :=
  match topological T with
  | None => stream_ordering r <= stream T
  | Some t => lex_le (position r) (t, stream T)
  end.

(** ** Seed data of the end-to-end scenarios *)

Definition seed_event (room : string) (i : Z) : EventRow :=
  mkEvent ("e" +:+ pretty i) room "m.room.message" None false i i i.

Definition seed_room (room : string) : list EventRow :=
  seed_event room <$> [1; 2; 3; 4; 5].

Definition empty_world : world := mkWorld ∅ [].

Definition always_changed : string -> Z -> bool := fun _ _ => true.

(** Three builders: [build_clock] needs nothing, [build_auth] asks for
    [handlers] and [build_handlers] asks for [auth]. *)
Definition sample_builders (depname : string) : option (Server.builder string) :=
  if String.eqb depname "clock" then Some (fun _ hs => (Server.Done "Clock()", hs))
  else if String.eqb depname "auth" then Some (fun get hs => get "handlers" hs)
  else if String.eqb depname "handlers" then Some (fun get hs => get "auth" hs)
  else None.

Definition fresh_server : Server.HomeServer string := Server.mkHS ∅ ∅.

(** A room whose two events arrived against their depth. *)
Definition out_of_order_room : list EventRow :=
  [ mkEvent "a" "!R" "m.room.message" None false 1 7 7;
    mkEvent "b" "!R" "m.room.message" None false 2 5 5 ].

(** Scenario 5: a service interested in the user @u:hs alone, and a room
    with a message, the join of @u:hs, and another message. *)
Definition bridge_service : ApplicationService :=
  mkService [] (fun key => match key with
                           | Some u => String.eqb u "@u:hs"
                           | None => false
                           end).

Definition bridged_room (room : string) : list EventRow :=
  [ mkEvent "e1" room "m.room.message" None false 1 1 1;
    mkEvent "e2" room "m.room.member" (Some "@u:hs") false 2 2 2;
    mkEvent "e3" room "m.room.message" None false 3 3 3 ].

(** A string without the dash that separates the two parts of a token. *)
Fixpoint dash_free (s : string) : bool :=
  match s with
  | EmptyString => true
  | String c s' => negb (Ascii.eqb c "-") && dash_free s'
  end.

(** The rows of a room strictly before, and strictly after, a pinned row in
    the composite order. *)
Definition before_pin (room : string) (pin r : EventRow) : bool :=
  String.eqb (room_id r) room
  && ((topological_ordering r <? topological_ordering pin)
      || ((topological_ordering r =? topological_ordering pin)
          && (stream_ordering r <? stream_ordering pin))).

Definition after_pin (room : string) (pin r : EventRow) : bool :=
  String.eqb (room_id r) room
  && ((topological_ordering r >? topological_ordering pin)
      || ((topological_ordering r =? topological_ordering pin)
          && (stream_ordering r >? stream_ordering pin))).

(** How far row [o] is from the pin: the number of rows of the room that lie
    strictly before the pin and not below [o] (respectively strictly after
    the pin and not above [o]), [o] itself included.  A row is within a
    limit when this count does not exceed it. *)
Definition rank_before (db : list EventRow) (room : string) (pin o : EventRow) : Z :=
  Z.of_nat (length (List.filter
                      (fun r => before_pin room pin r && bool_decide (by_composite o r))
                      db)).

Definition rank_after (db : list EventRow) (room : string) (pin o : EventRow) : Z :=
  Z.of_nat (length (List.filter
                      (fun r => after_pin room pin r && bool_decide (by_composite r o))
                      db)).

(** A room whose first and last events are outliers, and a service that is
    interested in the room. *)
Definition outlier_room : list EventRow :=
  [ mkEvent "o1" "!R" "m.room.message" None true 1 1 1;
    mkEvent "e2" "!R" "m.room.message" None false 2 2 2;
    mkEvent "o3" "!R" "m.room.message" None true 3 3 3 ].

Definition room_service : ApplicationService :=
  mkService ["!R"] (fun _ => false).

(** ** The other reads of the stream store *)

(** Exceptions that only the functions below raise.  A read that raises one
    of them returns it on the left of a sum. *)
Inductive py_error : Type :=
  | TypeError (msg : string)
  | IndexError (msg : string)
  | FirstError (index : nat) (e : exn).

(** An aggregate MAX: NULL, here [None], over no rows. *)
Definition sql_max (xs : list Z) : option Z :=
  match xs with
  | [] => None
  | _ :: _ => Some (py_max xs)
  end.

(** [xrange(0, stop, step)] *)
Definition xrange0 (stop step : nat) : list nat :=
  (fun k => (k * step)%nat) <$> seq 0 ((stop + step - 1) `div` step).

Definition perform_all (es : list Effect) : M unit :=
  fun w => (Return tt, mkWorld (metadata w) (effects w ++ es)).

(** [defer.gatherResults]: the results of the reads in the order of the
    list, or [FirstError] around the first failure.  The reads of one call
    run concurrently; the model runs them one after the other, which gives
    the same results, and a failing read of this store has no effect. *)
Fixpoint gatherResults {A : Type} (index : nat) (reads : list (M A))
  : M (py_error + list A) :=
  match reads with
  | [] => ret (inr [])
  | m :: rest =>
      fun w =>
        match m w with
        | (Return a, w') =>
            match gatherResults (S index) rest w' with
            | (Return (inr l), w'') => (Return (inr (a :: l)), w'')
            | other => other
            end
        | (Raise e, w') => (Return (inl (FirstError index e)), w')
        end
  end.

Section StreamStoreRest.

Variable events_table : list EventRow.
(** [_events_stream_cache.has_entity_changed], the same for
    [_membership_stream_cache], the [room_memberships] table as pairs
    (event_id, user_id), and [_stream_id_gen.get_current_token()]. *)
Variable has_entity_changed : string -> Z -> bool.
Variable membership_has_entity_changed : string -> Z -> bool.
Variable room_memberships : list (string * string).
Variable current_token : Z.

(** *** get_room_events_stream_for_rooms *)

(** Modelled from the spec: [get_entities_changed] of the stream change
    cache, which is not among the sources: the given keys for which the cache
    reports a change or has no information, that is, the keys of which
    [has_entity_changed] holds.  The one question about all the keys is
    recorded as a question about each.  The result is a set; it is listed
    in the order of the keys. *)
Definition get_entities_changed (room_ids : list string) (from_id : Z)
  : M (list string) :=
  _ <~ perform_all ((fun r => CacheHasEntityChanged r from_id) <$> room_ids) ;;
  ret (remove_dups (List.filter (fun r => has_entity_changed r from_id) room_ids)).

(** One turn of the loop over the slices of twenty rooms. *)
Definition stream_batch (from_key to_key : string) (limit : Z) (order : sort_order)
  (rm_ids : list string) (results : gmap string (list EventRow * option string))
  : M (py_error + gmap string (list EventRow * option string)) :=
  res <~ gatherResults 0
           ((fun room =>
               get_room_events_stream_for_room events_table has_entity_changed
                 room (Some from_key) to_key limit order) <$> rm_ids) ;;
  match res with
  | inl e => ret (inl e)
  | inr res =>
      (* results.update(dict(zip(rm_ids, res))) *)
      ret (inr (fold_left (fun m kv => <[kv.1 := kv.2]> m) (zip rm_ids res) results))
  end.

Fixpoint stream_batches (from_key to_key : string) (limit : Z) (order : sort_order)
  (slices : list (list string)) (results : gmap string (list EventRow * option string))
  : M (py_error + gmap string (list EventRow * option string)) :=
  match slices with
  | [] => ret (inr results)
  | rm_ids :: rest =>
      r <~ stream_batch from_key to_key limit order rm_ids results ;;
      match r with
      | inl e => ret (inl e)
      | inr results => stream_batches from_key to_key limit order rest results
      end
  end.

Definition get_room_events_stream_for_rooms (room_ids : list string)
  (from_key to_key : string) (limit : Z) (order : sort_order)
  : M (py_error + gmap string (list EventRow * option string)) :=
  from_tok <~ lift (parse_stream_token from_key) ;;
  let from_id := stream from_tok in
  room_ids <~ get_entities_changed room_ids from_id ;;
  match room_ids with
  | [] => ret (inr ∅)
  | _ :: _ =>
      stream_batches from_key to_key limit order
        ((fun i => take 20 (drop i room_ids)) <$> xrange0 (length room_ids) 20) ∅
  end.

(** *** get_membership_changes_for_user *)

(** FROM events AS e, room_memberships AS m
    WHERE e.event_id = m.event_id AND m.user_id = ? *)
Definition membership_join (user : string) : list EventRow :=
  flat_map
    (fun e =>
       flat_map
         (fun m => if String.eqb (event_id e) m.1 && String.eqb m.2 user
                   then [e] else [])
         room_memberships)
    events_table.

(** SELECT m.event_id, stream_ordering ... [AND e.stream_ordering > ?]
    AND e.stream_ordering <= ? ORDER BY e.stream_ordering ASC *)
Definition membership_rows (user : string) (from_id : option Z) (to_id : Z)
  : list EventRow :=
  order_by by_stream ASC
    (List.filter
       (fun r => match from_id with
                 | Some f => stream_ordering r >? f
                 | None => true
                 end
                 && (stream_ordering r <=? to_id))
       (membership_join user)).

Definition get_membership_changes_for_user (user : string)
  (from_key : option string) (to_key : string) : M (list EventRow) :=
  from_id <~ match from_key with
             | Some k => t <~ lift (parse_stream_token k) ;; ret (Some (stream t))
             | None => ret None
             end ;;
  to_tok <~ lift (parse_stream_token to_key) ;;
  let to_id := stream to_tok in
  if bool_decide (from_key = Some to_key) then ret [] else
  has_changed <~ match from_id with
                 | Some f =>
                     if f =? 0 then ret true
                     else _ <~ perform (CacheHasEntityChanged user f) ;;
                          ret (membership_has_entity_changed user f)
                 | None => ret true
                 end ;;
  if negb has_changed then ret [] else
  _ <~ perform (RunInteraction "get_membership_changes_for_user") ;;
  let rows := membership_rows user from_id to_id in
  evs <~ _get_events events_table (event_id <$> rows) ;;
  _ <~ modify_metadata (_set_before_and_after evs rows false) ;;
  ret evs.

(** *** Tokens of the stream head and of single events *)



(** SELECT max(topological_ordering) FROM events
    WHERE room_id = ? AND stream_ordering < ?, and [r[0][0] if r else 0]
    on its one row. *)
Definition get_max_topological_token_for_stream_and_room (room : string)
  (stream_key : Z) : M (option Z) :=
  _ <~ perform (RunInteraction "get_max_topological_token_for_stream_and_room") ;;
  let r :=
    [ sql_max (topological_ordering
                 <$> List.filter
                       (fun r => String.eqb (room_id r) room
                                 && (stream_ordering r <? stream_key))
                       events_table) ] in
  ret (match r with
       | x :: _ => x
       | [] => Some 0
       end).




End StreamStoreRest.

(** ** The rest of the home server *)

(** [string.split(":", 1)]: the text before the first colon and, when there
    is a colon, the text after it. *)
Fixpoint split_colon (s : string) : string * option string :=
  match s with
  | EmptyString => (EmptyString, None)
  | String c s' =>
      if Ascii.eqb c ":" then (EmptyString, Some s')
      else let ab := split_colon s' in (String c ab.1, ab.2)
  end.

(** [HomeServer.is_mine_id]: [string.split(":", 1)[1] == self.hostname]. *)
Definition is_mine_id (hostname : string) (s : string) : py_error + bool :=
  match (split_colon s).2 with
  | Some domain => inr (String.eqb domain hostname)
  | None => inl (IndexError "list index out of range")
  end.

(** A [build_DEPENDENCY] method written as the class docstring describes
    it: code that obtains sub-dependencies through the accessors and then
    returns the instance it made, or raises. *)
Inductive recipe (V : Type) : Type :=
  | Build (v : V)
  | Need (depname : string) (k : V -> recipe V)
  | Abort (e : exn).
Arguments Build {V} v.
Arguments Need {V} depname k.
Arguments Abort {V} e.

Fixpoint run_recipe {V : Type} (r : recipe V) : Server.builder V :=
  fun get hs =>
    match r with
    | Build v => (Server.Done v, hs)
    | Need depname k =>
        match get depname hs with
        | (Server.Done v, hs') => run_recipe (k v) get hs'
        | (other, hs') => (other, hs')
        end
    | Abort e => (Server.Failed e, hs)
    end.

(** [build_event_builder_factory]: it calls [self.get_clock()] and passes the
    clock and [self.hostname], the host name given to the constructor of the
    home server, to [EventBuilderFactory]. *)
Definition build_event_builder_factory {V : Type}
  (EventBuilderFactory : V -> string -> V) (hostname : string) : recipe V :=
  Need "clock" (fun clock => Build (EventBuilderFactory clock hostname)).

(** A class all of whose builders are such methods. *)
Definition recipes {V : Type} (builders : string -> option (Server.builder V))
  : Prop :=
  forall d b, builders d = Some b -> exists r, b = run_recipe r.

(** A home server class with the one builder [build_event_builder_factory]. *)
Definition factory_builders (depname : string) : option (Server.builder string) :=
  if String.eqb depname "event_builder_factory"
  then Some (run_recipe (build_event_builder_factory
                           (fun clock hostname =>
                              "EventBuilderFactory(" +:+ clock +:+ ", "
                              +:+ hostname +:+ ")") "hs"))
  else None.

(** What one accessor call for [d] does to the home server [hs], given its
    result [res]: attributes and marks are only added, a marked dependency
    that is no attribute does not become one, a success leaves the marks as
    they were and [d] an attribute, and after a failure [d] is marked and
    still no attribute when it was no attribute and has a builder. *)
Definition get_inv {V : Type} (builders : string -> option (Server.builder V))
  (d : string) (hs : Server.HomeServer V)
  (res : Server.outcome V * Server.HomeServer V) : Prop :=
  Server.attrs hs ⊆ Server.attrs res.2
  /\ Server._building hs ⊆ Server._building res.2
  /\ (forall k, is_Some (Server._building hs !! k) ->
        Server.attrs hs !! k = None -> Server.attrs res.2 !! k = None)
  /\ match res.1 with
     | Server.Done v =>
         Server._building res.2 = Server._building hs
         /\ Server.attrs res.2 !! d = Some v
     | Server.Failed _ =>
         Server.attrs hs !! d = None -> is_Some (builders d) ->
         is_Some (Server._building res.2 !! d)
         /\ Server.attrs res.2 !! d = None
     | Server.OutOfFuel => True
     end.

(** A home server on which the three dependencies that the constructor
    makes itself are attributes. *)
Definition constructed_server : Server.HomeServer string :=
  Server.mkHS {[ "clock" := "Clock()"; "distributor" := "Distributor()";
                 "ratelimiter" := "Ratelimiter()" ]} ∅.

(** Three builders each of which asks for the next one, in a circle. *)
Definition circular_builders (depname : string) : option (Server.builder string) :=
  if String.eqb depname "auth"
  then Some (run_recipe (Need "handlers" (fun _ => Build "Auth(hs)")))
  else if String.eqb depname "handlers"
  then Some (run_recipe (Need "notifier" (fun _ => Build "Handlers(hs)")))
  else if String.eqb depname "notifier"
  then Some (run_recipe (Need "auth" (fun _ => Build "Notifier(hs)")))
  else None.

(** A text without a colon. *)
Fixpoint colon_free (s : string) : bool :=
  match s with
  | EmptyString => true
  | String c s' => negb (Ascii.eqb c ":") && colon_free s'
  end.

(** * Theorems *)

#[global] Arguments parse : simpl never.
#[global] Arguments parse_stream_token : simpl never.
#[global] Arguments token_str : simpl never.
#[global] Arguments _set_before_and_after : simpl never.
#[global] Arguments _get_events_txn : simpl never.
#[global] Arguments stream_rows : simpl never.
#[global] Arguments topological_rows : simpl never.
#[global] Arguments paginate_rows : simpl never.
#[global] Arguments appservice_rows : simpl never.
#[global] Arguments recent_rows : simpl never.
#[global] Arguments query_before : simpl never.
#[global] Arguments query_after : simpl never.
#[global] Arguments upper_bound : simpl never.
#[global] Arguments lower_bound : simpl never.

Example lower_bound_text :
  render (lower_bound (mkToken (Some 5) 7)) =
  "(5 < topological_ordering OR (5 = topological_ordering AND 7 < stream_ordering))".
Proof. vm_compute. reflexivity. Qed.

Example parse_examples :
  parse "t5-5" = inr (mkToken (Some 5) 5) /\ parse "s2" = inr (mkToken None 2)
  /\ parse "s-3" = inr (mkToken None (-3)) /\ token_str (mkToken (Some 4) 3) = "t4-3"
  /\ token_str (mkToken None (-12)) = "s-12".
Proof. vm_compute. repeat split; reflexivity. Qed.

(** ** Bounds *)

Lemma eval_lower_bound (T : RoomStreamToken) (r : EventRow) :
  eval_cond (lower_bound T) r = true <-> strictly_after T r.
Proof.
  unfold lower_bound, strictly_after, lex_lt, position.
  destruct (topological T) as [t|]; simpl.
  - rewrite orb_true_iff, andb_true_iff, !Z.ltb_lt, Z.eqb_eq. reflexivity.
  - apply Z.ltb_lt.
Qed.

Lemma eval_upper_bound (T : RoomStreamToken) (r : EventRow) :
  eval_cond (upper_bound T) r = true <-> at_or_before T r.
Proof.
  unfold upper_bound, at_or_before, lex_le, position.
  destruct (topological T) as [t|]; simpl.
  - rewrite orb_true_iff, andb_true_iff, Z.gtb_ltb, Z.geb_leb,
      Z.ltb_lt, Z.leb_le, Z.eqb_eq.
    intuition lia.
  - rewrite Z.geb_leb. apply Z.leb_le.
Qed.

(** C5: the predicate of [lower_bound T] holds of exactly the rows strictly
    greater than T, the predicate of [upper_bound T] of exactly the rows less
    than or equal to T (stream comparison for a stream token, lexicographic
    comparison on (topological_ordering, stream_ordering) otherwise), and
    every row satisfies exactly one of the two. *)
Theorem bounds_strict_low_inclusive_high (T : RoomStreamToken) (r : EventRow) :
  (eval_cond (lower_bound T) r = true <-> strictly_after T r)
  /\ (eval_cond (upper_bound T) r = true <-> at_or_before T r)
  /\ eval_cond (upper_bound T) r = negb (eval_cond (lower_bound T) r).
Proof.
  split; [apply eval_lower_bound|]. split; [apply eval_upper_bound|].
  unfold upper_bound, lower_bound.
  destruct (topological T) as [t|]; simpl;
    rewrite ?Z.gtb_ltb, ?Z.geb_leb.
  - destruct (Z.ltb_spec t (topological_ordering r)),
             (Z.ltb_spec (topological_ordering r) t),
             (Z.eqb_spec t (topological_ordering r)),
             (Z.ltb_spec (stream T) (stream_ordering r)),
             (Z.leb_spec (stream_ordering r) (stream T)); simpl; try reflexivity; lia.
  - destruct (Z.ltb_spec (stream T) (stream_ordering r)),
             (Z.leb_spec (stream_ordering r) (stream T)); simpl; try reflexivity; lia.
Qed.

(** ** Equal tokens *)

(** C6: when [from_key] and [to_key] are the same valid token,
    [get_room_events_stream_for_room] returns the empty list and [from_key],
    and leaves the world as it was: no effect is performed (no cache
    question, no database interaction, no fetch) and no metadata written. *)
Theorem equal_tokens_no_interaction
  (events_table : list EventRow) (cache : string -> Z -> bool)
  (room key : string) (tok : RoomStreamToken) (limit : Z) (order : sort_order)
  (w : world) :
  parse_stream_token key = inr tok ->
  get_room_events_stream_for_room events_table cache room (Some key) key limit order w
  = (Return ([], Some key), w).
Proof.
  intros Hparse. unfold get_room_events_stream_for_room, bind.
  rewrite Hparse. simpl. rewrite bool_decide_eq_true_2 by reflexivity.
  reflexivity.
Qed.

Lemma equal_tokens_no_interaction_witness :
  get_room_events_stream_for_room (seed_room "!R") always_changed "!R"
    (Some "s5") "s5" 100 DESC empty_world
  = (Return ([], Some "s5"), empty_world).
Proof.
  apply (equal_tokens_no_interaction _ _ _ "s5" (mkToken None 5)).
  vm_compute. reflexivity.
Defined.

(** ** Rows of a query *)

Lemma filter_elem_of {A : Type} (f : A -> bool) (l : list A) (x : A) :
  x ∈ List.filter f l <-> x ∈ l /\ f x = true.
Proof. rewrite !list_elem_of_In. apply filter_In. Qed.

Lemma filter_sublist {A : Type} (f : A -> bool) (l : list A) :
  List.filter f l `sublist_of` l.
Proof.
  induction l as [|x l IH]; simpl; [constructor|].
  destruct (f x); [by apply sublist_skip | by apply sublist_cons].
Qed.

Lemma filter_andb {A : Type} (f g : A -> bool) (l : list A) :
  List.filter (fun x => f x && g x) l = List.filter g (List.filter f l).
Proof.
  induction l as [|x l IH]; simpl; [done|].
  destruct (f x); simpl; [destruct (g x)|]; by rewrite IH.
Qed.

Lemma sql_limit_sublist {A : Type} (n : Z) (l : list A) :
  sql_limit n l `sublist_of` l.
Proof. unfold sql_limit. destruct (n <? 0); [done | apply sublist_take]. Qed.

Lemma order_by_perm (R : relation EventRow) `{!RelDecision R} (o : sort_order)
  (l : list EventRow) : order_by R o l ≡ₚ l.
Proof. apply merge_sort_Permutation. Qed.

(** Every query of the store is of this shape: WHERE, ORDER BY, LIMIT. *)
Lemma select_submseteq (R : relation EventRow) `{!RelDecision R} (o : sort_order)
  (n : Z) (f : EventRow -> bool) (db : list EventRow) :
  sql_limit n (order_by R o (List.filter f db)) ⊆+ db.
Proof.
  etrans; [apply sublist_submseteq, sql_limit_sublist|].
  rewrite order_by_perm. apply sublist_submseteq, filter_sublist.
Qed.

Lemma select_elem_of (R : relation EventRow) `{!RelDecision R} (o : sort_order)
  (n : Z) (f : EventRow -> bool) (db : list EventRow) (r : EventRow) :
  r ∈ sql_limit n (order_by R o (List.filter f db)) -> r ∈ db /\ f r = true.
Proof.
  intros Hr. apply filter_elem_of.
  rewrite <- (order_by_perm R o).
  eapply elem_of_submseteq; [apply Hr|].
  apply sublist_submseteq, sql_limit_sublist.
Qed.

Lemma submseteq_nodup {A : Type} (l k : list A) : l ⊆+ k -> NoDup k -> NoDup l.
Proof.
  intros [k' Hk]%submseteq_Permutation Hnd. rewrite Hk in Hnd.
  by apply NoDup_app in Hnd as [? _].
Qed.

Lemma fmap_nodup_submseteq {A B : Type} (f : A -> B) (l k : list A) :
  l ⊆+ k -> NoDup (f <$> k) -> NoDup (f <$> l).
Proof. intros Hsub. apply submseteq_nodup. by apply fmap_submseteq. Qed.

(** ** The event store under the primary key *)

Section EventStore.

Variable db : list EventRow.
Hypothesis event_id_key : NoDup (event_id <$> db).

Lemma fetch_event_unique (r : EventRow) :
  r ∈ db -> fetch_event db (event_id r) = Some r.
Proof using event_id_key.
  unfold fetch_event. clear -event_id_key.
  induction db as [|x l IH]; intros Hin; [by apply elem_of_nil in Hin|].
  rewrite fmap_cons in event_id_key. apply NoDup_cons in event_id_key as [Hx Hl].
  simpl. destruct (String.eqb_spec (event_id x) (event_id r)) as [Heq|Hne].
  - apply elem_of_cons in Hin as [->|Hin]; [done|].
    exfalso. apply Hx. rewrite Heq. by apply list_elem_of_fmap_2.
  - apply elem_of_cons in Hin as [->|Hin]; [done|]. by apply IH.
Qed.

Lemma get_events_of_rows (rows : list EventRow) :
  (forall r, r ∈ rows -> r ∈ db) ->
  _get_events_txn db (event_id <$> rows) = rows.
Proof using event_id_key.
  unfold _get_events_txn.
  induction rows as [|r rows IH]; intros Hsub; [done|].
  rewrite fmap_cons. simpl.
  rewrite fetch_event_unique by (apply Hsub; left).
  f_equal. apply IH. intros r' Hr'. apply Hsub. by right.
Qed.

Lemma get_events_of_submseteq (rows : list EventRow) :
  rows ⊆+ db -> _get_events_txn db (event_id <$> rows) = rows.
Proof using event_id_key.
  intros Hsub. apply get_events_of_rows. intros r Hr.
  by eapply elem_of_submseteq.
Qed.

Lemma rows_event_id_nodup (rows : list EventRow) :
  rows ⊆+ db -> NoDup (event_id <$> rows).
Proof using event_id_key.
  intros Hsub. by eapply fmap_nodup_submseteq.
Qed.

End EventStore.

(** ** The annotator on a batch of distinct events *)

Lemma set_before_and_after_other (events rows : list EventRow) (topo_order : bool)
  (h : gmap string InternalMetadata) (k : string) :
  k ∉ event_id <$> events ->
  _set_before_and_after events rows topo_order h !! k = h !! k.
Proof.
  unfold _set_before_and_after.
  revert rows h. induction events as [|e events IH]; intros rows h Hk; [done|].
  destruct rows as [|r rows]; [done|]. simpl.
  rewrite fmap_cons in Hk. apply not_elem_of_cons in Hk as [Hne Hk].
  rewrite IH by done. by rewrite lookup_insert_ne.
Qed.

Lemma set_before_and_after_lookup (events rows : list EventRow) (topo_order : bool)
  (h : gmap string InternalMetadata) (i : nat) (e r : EventRow) :
  NoDup (event_id <$> events) ->
  events !! i = Some e -> rows !! i = Some r ->
  _set_before_and_after events rows topo_order h !! event_id e
  = Some (annotation topo_order e r).
Proof.
  revert rows h i. induction events as [|e0 events IH]; intros rows h i Hnd He Hr;
    [done|].
  destruct rows as [|r0 rows]; [done|].
  rewrite fmap_cons in Hnd. apply NoDup_cons in Hnd as [Hfresh Hnd].
  destruct i as [|i]; simpl in He, Hr.
  - injection He as ->. injection Hr as ->.
    change (_set_before_and_after (e :: events) (r :: rows) topo_order h)
      with (_set_before_and_after events rows topo_order
              (<[event_id e := annotation topo_order e r]> h)).
    rewrite set_before_and_after_other by done. apply lookup_insert_eq.
  - change (_set_before_and_after (e0 :: events) (r0 :: rows) topo_order h)
      with (_set_before_and_after events rows topo_order
              (<[event_id e0 := annotation topo_order e0 r0]> h)).
    by eapply IH.
Qed.

(** ** Sorted results *)

#[global] Instance by_stream_trans : Transitive by_stream.
Proof. unfold by_stream. intros a b c. lia. Qed.

#[global] Instance by_stream_total : Total by_stream.
Proof. unfold by_stream. intros a b. lia. Qed.

#[global] Instance by_composite_trans : Transitive by_composite.
Proof. unfold by_composite. intros a b c. lia. Qed.

#[global] Instance by_composite_total : Total by_composite.
Proof. unfold by_composite. intros a b. lia. Qed.

#[global] Instance directed_trans (o : sort_order) (R : relation EventRow)
  `{!Transitive R} : Transitive (directed o R).
Proof. destruct o; unfold directed, flip; [done|]. intros a b c ??. by trans b. Qed.

#[global] Instance directed_total (o : sort_order) (R : relation EventRow)
  `{!Total R} : Total (directed o R).
Proof. destruct o; unfold directed, flip; [done|]. intros a b. apply total, _. Qed.

Lemma strongly_sorted_sublist {A : Type} (R : relation A) (l k : list A) :
  l `sublist_of` k -> StronglySorted R k -> StronglySorted R l.
Proof.
  induction 1 as [|x l k Hsub IH|x l k Hsub IH]; intros Hk; [done|..].
  - apply StronglySorted_inv in Hk as [Hk Hx]. constructor; [by apply IH|].
    rewrite Forall_forall in Hx |- *. intros y Hy. apply Hx.
    eapply elem_of_submseteq; [apply Hy|]. by apply sublist_submseteq.
  - apply StronglySorted_inv in Hk as [Hk _]. by apply IH.
Qed.

Lemma select_sorted (R : relation EventRow) `{!RelDecision R}
  `{!Transitive R, !Total R} (o : sort_order) (n : Z) (l : list EventRow) :
  StronglySorted (directed o R) (sql_limit n (order_by R o l)).
Proof.
  eapply strongly_sorted_sublist; [apply sql_limit_sublist|].
  apply StronglySorted_merge_sort; apply _.
Qed.

Lemma strongly_sorted_reverse (R : relation EventRow) `{!Transitive R}
  (l : list EventRow) :
  StronglySorted (flip R) l -> StronglySorted R (reverse l).
Proof.
  intros Hl. apply Sorted_StronglySorted; [done|].
  apply (Sorted_reverse (flip R)). by apply StronglySorted_Sorted.
Qed.

(** The list handed back after the [ret.reverse()] of a descending read. *)
Lemma oriented_sorted (R : relation EventRow) `{!Transitive R} (o : sort_order)
  (l : list EventRow) :
  StronglySorted (directed o R) l ->
  StronglySorted R (match o with DESC => reverse l | ASC => l end).
Proof. destruct o; [done|]. apply strongly_sorted_reverse, _. Qed.

(** ** What the reads return *)

Ltac run_monad :=
  unfold bind, ret, raise, lift, perform, modify_metadata, _get_events in *;
  simpl in *.

Lemma stream_for_room_returns (db : list EventRow) (cache : string -> Z -> bool)
  (room : string) (from_key : option string) (to_key : string) (limit : Z)
  (order : sort_order) (w w' : world) (evs : list EventRow) (key : option string) :
  get_room_events_stream_for_room db cache room from_key to_key limit order w
  = (Return (evs, key), w') ->
  evs = []
  \/ exists rows,
       evs = match order with
             | DESC => reverse (_get_events_txn db (event_id <$> rows))
             | ASC => _get_events_txn db (event_id <$> rows)
             end
       /\ ((exists f t, is_Some from_key /\ rows = stream_rows db room f t limit order)
           \/ (exists t, from_key = None /\ rows = topological_rows db room t limit order)).
Proof.
  unfold get_room_events_stream_for_room. run_monad. intros H.
  destruct from_key as [k|].
  - destruct (parse_stream_token k) as [e|ft]; simpl in H; [done|].
    destruct (parse_stream_token to_key) as [e|tt]; simpl in H; [done|].
    case_bool_decide; [left; congruence|].
    destruct (stream ft =? 0); simpl in H.
    + injection H as <- <- <-. right. eexists. split; [reflexivity|]. left. eauto.
    + destruct (cache room (stream ft)); simpl in H; [|left; congruence].
      injection H as <- <- <-. right. eexists. split; [reflexivity|]. left. eauto.
  - destruct (parse_stream_token to_key) as [e|tt]; simpl in H; [done|].
    injection H as <- <- <-. right. eexists. split; [reflexivity|]. right. eauto.
Qed.

Lemma paginate_rows_select (db : list EventRow) (room : string) (bounds : sql_cond)
  (order : sort_order) (limit : Z) :
  paginate_rows db room bounds order limit
  = sql_limit (if limit >? 0 then limit else -1)
      (order_by by_composite order
         (List.filter
            (fun r => String.eqb (room_id r) room
                      && (negb (outlier r) && eval_cond bounds r)) db)).
Proof.
  unfold paginate_rows.
  rewrite (List.filter_ext _
             (fun r => String.eqb (room_id r) room
                       && (negb (outlier r) && eval_cond bounds r))).
  - by destruct (limit >? 0).
  - intros r. destruct (outlier r), (String.eqb (room_id r) room); reflexivity.
Qed.

Lemma paginate_returns (db : list EventRow) (room from_key : string)
  (to_key : option string) (direction : string) (limit : Z) (w w' : world)
  (evs : list EventRow) (tok : string) :
  paginate_room_events db room from_key to_key direction limit w
  = (Return (evs, tok), w') ->
  exists bounds,
    evs = _get_events_txn db
            (event_id <$> paginate_rows db room bounds
                            (if String.eqb direction "b" then DESC else ASC) limit).
Proof.
  unfold paginate_room_events. run_monad. intros H.
  destruct (parse from_key) as [e|ft]; simpl in H; [done|].
  destruct to_key as [[|c k]|]; simpl in H.
  - injection H as <- <- <-. eauto.
  - destruct (parse (String c k)) as [e|tt]; simpl in H; [done|].
    injection H as <- <- <-. eauto.
  - injection H as <- <- <-. eauto.
Qed.

(** Reads of one room only look at the rows of that room. *)
Lemma stream_rows_of_room (db : list EventRow) (room : string) (f t n : Z)
  (o : sort_order) :
  stream_rows db room f t n o
  = sql_limit n
      (order_by by_stream o
         (List.filter
            (fun r => negb (outlier r) && (stream_ordering r >? f)
                      && (stream_ordering r <=? t))
            (List.filter (fun r => String.eqb (room_id r) room) db))).
Proof.
  unfold stream_rows. rewrite <- filter_andb. do 2 f_equal.
  apply List.filter_ext. intros r.
  by rewrite !andb_assoc.
Qed.

Lemma paginate_rows_of_room (db : list EventRow) (room : string) (bounds : sql_cond)
  (o : sort_order) (limit : Z) :
  paginate_rows db room bounds o limit
  = sql_limit (if limit >? 0 then limit else -1)
      (order_by by_composite o
         (List.filter (fun r => negb (outlier r) && eval_cond bounds r)
            (List.filter (fun r => String.eqb (room_id r) room) db))).
Proof. rewrite paginate_rows_select. by rewrite filter_andb. Qed.

(** ** Scenario 1: live sync *)

Lemma live_sync_counterexample :
  (get_room_events_stream_for_room (seed_room "!R") always_changed "!R"
     (Some "s2") "s5" 100 ASC empty_world).1
  <> Return (seed_event "!R" <$> [3; 4; 5], Some "s5").
Proof. vm_compute. discriminate. Qed.

(** C1, amended: in a room R that holds exactly e1..e5 (stream 1..5, depth
    1..5, no outlier), whose change cache reports a change since stream 2,
    [get_room_events_stream_for_room(R, "s2", "s5", 100, "ASC")] returns the
    events of stream_ordering 3, 4, 5 in that order, and the returned token is
    "s3", the least stream_ordering of the rows. *)
Theorem live_sync_scenario (db : list EventRow) (cache : string -> Z -> bool)
  (R : string) (w : world) :
  NoDup (event_id <$> db) ->
  List.filter (fun r => String.eqb (room_id r) R) db = seed_room R ->
  cache R 2 = true ->
  (get_room_events_stream_for_room db cache R (Some "s2") "s5" 100 ASC w).1
  = Return (seed_event R <$> [3; 4; 5], Some "s3").
Proof.
  intros Hkey Hroom Hcache.
  assert (Hrows : stream_rows db R 2 5 100 ASC = seed_event R <$> [3; 4; 5]).
  { rewrite stream_rows_of_room, Hroom. vm_compute. reflexivity. }
  assert (Hsub : seed_event R <$> [3; 4; 5] ⊆+ db).
  { rewrite <- Hrows. apply select_submseteq. }
  unfold get_room_events_stream_for_room, bind, lift, ret, perform,
    modify_metadata, _get_events.
  change (parse_stream_token "s2") with (@inr exn _ (mkToken None 2)).
  change (parse_stream_token "s5") with (@inr exn _ (mkToken None 5)).
  cbn [stream fst snd]. rewrite bool_decide_eq_false_2 by discriminate.
  change (2 =? 0) with false. cbn iota. rewrite Hcache. cbn [negb].
  rewrite Hrows, (get_events_of_submseteq db Hkey _ Hsub).
  reflexivity.
Qed.

Lemma live_sync_scenario_witness :
  (get_room_events_stream_for_room (seed_room "!R") always_changed "!R"
     (Some "s2") "s5" 100 ASC empty_world).1
  = Return (seed_event "!R" <$> [3; 4; 5], Some "s3").
Proof.
  apply live_sync_scenario.
  - apply (bool_decide_unpack _). vm_compute. exact I.
  - reflexivity.
  - reflexivity.
Defined.

(** ** Scenario 3: backward pagination *)

Lemma backward_pagination_counterexample :
  exists evs tok,
    (paginate_room_events (seed_room "!R") "!R" "t5-5" None "b" 2 empty_world).1
    = Return (evs, tok)
    /\ (seed_event "!R" 3 ∉ evs) /\ tok <> "t3-2".
Proof.
  exists (seed_event "!R" <$> [5; 4]), "t4-3". split; [vm_compute; reflexivity|].
  split; [|discriminate].
  intros Hin. apply list_elem_of_In in Hin. vm_compute in Hin.
  destruct Hin as [H|[H|[]]]; discriminate H.
Qed.

(** C4, amended: in a room R that holds exactly e1..e5 (stream 1..5, depth
    1..5, no outlier), [paginate_room_events(R, "t5-5", None, 'b', 2)] returns
    e5 and e4, in that order, and the next token "t4-3": the topological
    ordering of the last returned row, e4, and its stream ordering less one. *)
Theorem backward_pagination_scenario (db : list EventRow) (R : string) (w : world) :
  NoDup (event_id <$> db) ->
  List.filter (fun r => String.eqb (room_id r) R) db = seed_room R ->
  (paginate_room_events db R "t5-5" None "b" 2 w).1
  = Return (seed_event R <$> [5; 4], "t4-3").
Proof.
  intros Hkey Hroom.
  assert (Hrows : paginate_rows db R (upper_bound (mkToken (Some 5) 5)) DESC 2
                  = seed_event R <$> [5; 4]).
  { rewrite paginate_rows_of_room, Hroom. vm_compute. reflexivity. }
  assert (Hsub : seed_event R <$> [5; 4] ⊆+ db).
  { rewrite <- Hrows, paginate_rows_select. apply select_submseteq. }
  unfold paginate_room_events, bind, lift, ret, perform, modify_metadata,
    _get_events.
  change (parse "t5-5") with (@inr exn _ (mkToken (Some 5) 5)).
  simpl. rewrite Hrows, (get_events_of_submseteq db Hkey _ Hsub).
  reflexivity.
Qed.

Lemma backward_pagination_scenario_witness :
  (paginate_room_events (seed_room "!R") "!R" "t5-5" None "b" 2 empty_world).1
  = Return (seed_event "!R" <$> [5; 4], "t4-3").
Proof.
  apply backward_pagination_scenario.
  - apply (bool_decide_unpack _). vm_compute. exact I.
  - reflexivity.
Defined.

(** ** Runs of the other reads *)

Lemma appservice_run (db : list EventRow) (service : ApplicationService)
  (from_key to_key : string) (limit : Z) (w : world) (ft tt : RoomStreamToken) :
  parse_stream_token from_key = inr ft ->
  parse_stream_token to_key = inr tt ->
  from_key <> to_key ->
  let rows := appservice_rows db (stream ft) (stream tt)
                (if limit =? 0 then MAX_STREAM_SIZE else Z.max limit MAX_STREAM_SIZE) in
  let evs := _get_events_txn db
               (event_id <$> List.filter (app_service_interested service) rows) in
  get_appservice_room_stream db service from_key to_key limit w
  = (Return (evs, match rows with
                  | [] => to_key
                  | _ :: _ => "s" +:+ pretty (py_max (stream_ordering <$> rows))
                  end),
     mkWorld (_set_before_and_after evs rows true (metadata w))
             (effects w ++ [RunInteraction "get_appservice_room_stream"])).
Proof.
  intros Hf Ht Hne. unfold get_appservice_room_stream. run_monad.
  rewrite Hf, Ht. simpl.
  destruct (String.eqb_spec from_key to_key) as [Heq|_]; [done|].
  reflexivity.
Qed.

Lemma appservice_returns (db : list EventRow) (service : ApplicationService)
  (from_key to_key : string) (limit : Z) (w w' : world) (evs : list EventRow)
  (key : string) :
  get_appservice_room_stream db service from_key to_key limit w
  = (Return (evs, key), w') ->
  evs = []
  \/ exists f t n,
       evs = _get_events_txn db
               (event_id <$> List.filter (app_service_interested service)
                               (appservice_rows db f t n)).
Proof.
  intros H.
  destruct (parse_stream_token from_key) as [e|ft] eqn:Hf.
  { unfold get_appservice_room_stream in H. run_monad. by rewrite Hf in H. }
  destruct (parse_stream_token to_key) as [e|tt] eqn:Ht.
  { unfold get_appservice_room_stream in H. run_monad. by rewrite Hf, Ht in H. }
  destruct (String.eqb_spec from_key to_key) as [Heq|Hne].
  - unfold get_appservice_room_stream in H. run_monad. rewrite Hf, Ht in H.
    simpl in H. apply String.eqb_eq in Heq. rewrite Heq in H. left. congruence.
  - rewrite (appservice_run db service _ _ limit w ft tt Hf Ht Hne) in H.
    injection H as <- _ _. right. eauto.
Qed.

Lemma recent_events_returns (db : list EventRow) (room : string) (limit : Z)
  (end_key : string) (from_key : option string) (w w' : world)
  (evs : list EventRow) (tok : string * string) :
  get_recent_events_for_room db room limit end_key from_key w
  = (Return (evs, tok), w') ->
  exists f t,
    evs = _get_events_txn db (event_id <$> reverse (recent_rows db room f t limit)).
Proof.
  unfold get_recent_events_for_room, get_recent_event_ids_for_room. run_monad.
  intros H.
  destruct (parse_stream_token end_key) as [e|et]; simpl in H; [done|].
  destruct from_key as [k|]; simpl in H.
  - destruct (parse_stream_token k) as [e|ft]; simpl in H; [done|].
    injection H as <- _ _. eauto.
  - injection H as <- _ _. eauto.
Qed.

Lemma events_around_returns (db : list EventRow) (room event : string)
  (before_limit after_limit : Z) (w w' : world) (res : EventsAround) :
  get_events_around db room event before_limit after_limit w = (Return res, w') ->
  exists pin,
    _simple_select_one_txn db room event = inr pin
    /\ events_before res
       = _get_events_txn db
           (event_id <$> query_before db room (topological_ordering pin)
                           (stream_ordering pin) before_limit)
    /\ events_after res
       = _get_events_txn db
           (event_id <$> query_after db room (topological_ordering pin)
                           (stream_ordering pin) after_limit).
Proof.
  unfold get_events_around, _get_events_around_txn. run_monad. intros H.
  destruct (_simple_select_one_txn db room event) as [e|pin]; simpl in H; [done|].
  exists pin. injection H as <- _. simpl. auto.
Qed.

(** ** Order of the returned events *)

Lemma ascending_order_counterexample :
  (exists evs tok,
     (paginate_room_events (seed_room "!R") "!R" "t5-5" None "b" 2 empty_world).1
     = Return (evs, tok)
     /\ ~ Sorted by_composite evs)
  /\ (exists evs key,
        (get_room_events_stream_for_room out_of_order_room always_changed "!R"
           (Some "s0") "s2" 10 DESC empty_world).1
        = Return (evs, key)
        /\ ~ Sorted by_composite evs).
Proof.
  split.
  - exists (seed_event "!R" <$> [5; 4]), "t4-3". split; [vm_compute; reflexivity|].
    intros Hs. apply Sorted_inv in Hs as [_ Hh]. apply HdRel_inv in Hh.
    unfold by_composite in Hh. simpl in Hh. lia.
  - exists out_of_order_room, (Some "s1"). split; [vm_compute; reflexivity|].
    intros Hs. apply Sorted_inv in Hs as [_ Hh]. apply HdRel_inv in Hh.
    unfold by_composite in Hh. simpl in Hh. lia.
Qed.

Section ReadOrder.

Variable db : list EventRow.
Hypothesis event_id_key : NoDup (event_id <$> db).

Lemma stream_for_room_order (cache : string -> Z -> bool) (room : string)
  (from_key : option string) (to_key : string) (limit : Z) (order : sort_order)
  (w w' : world) (evs : list EventRow) (key : option string) :
  get_room_events_stream_for_room db cache room from_key to_key limit order w
  = (Return (evs, key), w') ->
  StronglySorted (match from_key with
                  | Some _ => by_stream
                  | None => by_composite
                  end) evs.
Proof using event_id_key.
  intros [->|(rows & -> & Hrows)]%stream_for_room_returns; [constructor|].
  destruct Hrows as [(f & t & [k ->] & ->)|(t & -> & ->)].
  - rewrite get_events_of_submseteq by (done || apply select_submseteq).
    apply oriented_sorted; [apply _|]. apply select_sorted; apply _.
  - rewrite get_events_of_submseteq by (done || apply select_submseteq).
    apply oriented_sorted; [apply _|]. apply select_sorted; apply _.
Qed.

Lemma paginate_order (room from_key : string) (to_key : option string)
  (direction : string) (limit : Z) (w w' : world) (evs : list EventRow)
  (tok : string) :
  paginate_room_events db room from_key to_key direction limit w
  = (Return (evs, tok), w') ->
  StronglySorted
    (directed (if String.eqb direction "b" then DESC else ASC) by_composite) evs.
Proof using event_id_key.
  intros [bounds ->]%paginate_returns. rewrite paginate_rows_select.
  rewrite get_events_of_submseteq by (done || apply select_submseteq).
  apply select_sorted; apply _.
Qed.

Lemma recent_events_order (room : string) (limit : Z) (end_key : string)
  (from_key : option string) (w w' : world) (evs : list EventRow)
  (tok : string * string) :
  get_recent_events_for_room db room limit end_key from_key w
  = (Return (evs, tok), w') ->
  StronglySorted by_composite evs.
Proof using event_id_key.
  intros (f & t & ->)%recent_events_returns.
  rewrite get_events_of_submseteq.
  - apply strongly_sorted_reverse; [apply _|].
    apply (select_sorted by_composite DESC).
  - done.
  - rewrite reverse_Permutation. apply select_submseteq.
Qed.

Lemma appservice_order (service : ApplicationService) (from_key to_key : string)
  (limit : Z) (w w' : world) (evs : list EventRow) (key : string) :
  get_appservice_room_stream db service from_key to_key limit w
  = (Return (evs, key), w') ->
  StronglySorted by_stream evs.
Proof using event_id_key.
  intros [->|(f & t & n & ->)]%appservice_returns; [constructor|].
  rewrite get_events_of_submseteq.
  - eapply strongly_sorted_sublist; [apply filter_sublist|].
    apply (select_sorted by_stream ASC).
  - done.
  - etrans; [apply sublist_submseteq, filter_sublist|]. apply select_submseteq.
Qed.

Lemma events_around_order (room event : string) (before_limit after_limit : Z)
  (w w' : world) (res : EventsAround) :
  get_events_around db room event before_limit after_limit w = (Return res, w') ->
  StronglySorted (flip by_composite) (events_before res)
  /\ StronglySorted by_composite (events_after res).
Proof using event_id_key.
  intros (pin & _ & -> & ->)%events_around_returns.
  rewrite !get_events_of_submseteq by (done || apply select_submseteq).
  split.
  - apply (select_sorted by_composite DESC).
  - apply (select_sorted by_composite ASC).
Qed.

End ReadOrder.

(** C2, amended: the events a read returns are sorted, in an order that
    depends on the read.  [get_room_events_stream_for_room] returns them
    ascending in stream_ordering when [from_key] is given and ascending in
    the composite order when it is [None], for 'ASC' and for 'DESC' alike;
    [paginate_room_events] returns them ascending in the composite order for
    a forward direction and descending for direction 'b';
    [get_recent_events_for_room] returns them ascending in the composite
    order; [get_appservice_room_stream] ascending in stream_ordering;
    [get_events_around] returns [events_before] descending and
    [events_after] ascending in the composite order. *)
Theorem read_results_order (db : list EventRow) :
  NoDup (event_id <$> db) ->
  (forall cache room from_key to_key limit order w w' evs key,
     get_room_events_stream_for_room db cache room from_key to_key limit order w
     = (Return (evs, key), w') ->
     StronglySorted (match from_key with
                     | Some _ => by_stream
                     | None => by_composite
                     end) evs)
  /\ (forall room from_key to_key direction limit w w' evs tok,
        paginate_room_events db room from_key to_key direction limit w
        = (Return (evs, tok), w') ->
        StronglySorted
          (directed (if String.eqb direction "b" then DESC else ASC) by_composite)
          evs)
  /\ (forall room limit end_key from_key w w' evs tok,
        get_recent_events_for_room db room limit end_key from_key w
        = (Return (evs, tok), w') ->
        StronglySorted by_composite evs)
  /\ (forall service from_key to_key limit w w' evs key,
        get_appservice_room_stream db service from_key to_key limit w
        = (Return (evs, key), w') ->
        StronglySorted by_stream evs)
  /\ (forall room event before_limit after_limit w w' res,
        get_events_around db room event before_limit after_limit w
        = (Return res, w') ->
        StronglySorted (flip by_composite) (events_before res)
        /\ StronglySorted by_composite (events_after res)).
Proof.
  intros Hkey. repeat split; intros.
  - by eapply stream_for_room_order.
  - by eapply paginate_order.
  - by eapply recent_events_order.
  - by eapply appservice_order.
  - by eapply events_around_order.
  - by eapply events_around_order.
Qed.

Lemma read_results_order_witness :
  StronglySorted by_stream (seed_event "!R" <$> [3; 4; 5])
  /\ StronglySorted (flip by_composite) (seed_event "!R" <$> [5; 4]).
Proof.
  assert (Hkey : NoDup (event_id <$> seed_room "!R")).
  { apply (bool_decide_unpack _). vm_compute. exact I. }
  destruct (read_results_order (seed_room "!R") Hkey) as (Hs & Hp & _).
  split.
  - eapply (Hs always_changed "!R" (Some "s2") "s5" 100 DESC empty_world).
    vm_compute. reflexivity.
  - eapply (Hp "!R" "t5-5" None "b" 2 empty_world).
    vm_compute. reflexivity.
Defined.

(** ** The token of the application service stream *)

Lemma fold_max_spec (xs : list Z) (x : Z) :
  (fold_left Z.max xs x = x \/ fold_left Z.max xs x ∈ xs)
  /\ x <= fold_left Z.max xs x
  /\ (forall y, y ∈ xs -> y <= fold_left Z.max xs x).
Proof.
  revert x. induction xs as [|a xs IH]; intros x; simpl.
  - split; [by left|]. split; [lia|]. intros y Hy. by apply elem_of_nil in Hy.
  - destruct (IH (Z.max x a)) as (Hin & Hle & Hall). split; [|split].
    + destruct Hin as [Heq|Hin]; [|right; by right].
      destruct (Z.max_spec x a) as [[_ Hm]|[_ Hm]]; rewrite Hm in Heq |- *.
      * right. rewrite Heq. left.
      * by left.
    + lia.
    + intros y [->|Hy]%elem_of_cons; [lia|by apply Hall].
Qed.

Lemma py_max_spec (xs : list Z) :
  xs <> [] -> py_max xs ∈ xs /\ (forall y, y ∈ xs -> y <= py_max xs).
Proof.
  destruct xs as [|x xs]; [done|]. intros _. unfold py_max.
  destruct (fold_max_spec xs x) as (Hin & Hle & Hall). split.
  - destruct Hin as [->|Hin]; [left | by right].
  - intros y [->|Hy]%elem_of_cons; [done|by apply Hall].
Qed.

Lemma appservice_token_counterexample :
  exists evs key,
    (get_appservice_room_stream (bridged_room "!R") bridge_service
       "s0" "s3" 0 empty_world).1 = Return (evs, key)
    /\ evs <> []
    /\ key <> "s" +:+ pretty (py_max (stream_ordering <$> evs))
    /\ key <> "s2".
Proof.
  exists [mkEvent "e2" "!R" "m.room.member" (Some "@u:hs") false 2 2 2], "s3".
  split; [vm_compute; reflexivity|]. split; [discriminate|].
  split; [vm_compute; discriminate | discriminate].
Qed.

(** C3, amended: a call of [get_appservice_room_stream] with two different
    valid tokens returns the events of the interesting rows and, when the
    SQL query selected any row, the token "s" followed by the maximum
    stream_ordering among all the selected rows, before the interest filter
    (and [to_key] when it selected none).  Concretely, with rows e1, e2, e3
    at stream 1..3 of which only e2 is interesting,
    [get_appservice_room_stream(svc, "s0", "s3", 0)] returns [e2] and the
    token "s3". *)
Theorem appservice_next_token :
  (forall (db : list EventRow) (service : ApplicationService)
          (from_key to_key : string) (limit : Z) (w : world)
          (ft tt : RoomStreamToken),
     parse_stream_token from_key = inr ft ->
     parse_stream_token to_key = inr tt ->
     from_key <> to_key ->
     let rows := appservice_rows db (stream ft) (stream tt)
                   (if limit =? 0 then MAX_STREAM_SIZE
                    else Z.max limit MAX_STREAM_SIZE) in
     exists key,
       (get_appservice_room_stream db service from_key to_key limit w).1
       = Return (_get_events_txn db
                   (event_id <$> List.filter (app_service_interested service) rows),
                 key)
       /\ match rows with
          | [] => key = to_key
          | _ :: _ =>
              exists m, key = "s" +:+ pretty m
                        /\ m ∈ stream_ordering <$> rows
                        /\ forall r, r ∈ rows -> stream_ordering r <= m
          end)
  /\ (forall (db : list EventRow) (R : string) (w : world),
        NoDup (event_id <$> db) ->
        List.filter (fun r => (stream_ordering r >? 0) && (stream_ordering r <=? 3)) db
        = bridged_room R ->
        (get_appservice_room_stream db bridge_service "s0" "s3" 0 w).1
        = Return ([mkEvent "e2" R "m.room.member" (Some "@u:hs") false 2 2 2], "s3")).
Proof.
  split.
  - intros db service from_key to_key limit w ft tt Hf Ht Hne rows.
    rewrite (appservice_run db service _ _ limit w ft tt Hf Ht Hne).
    fold rows. eexists. split; [reflexivity|].
    destruct rows as [|r0 rows'] eqn:Hrows; [done|].
    exists (py_max (stream_ordering <$> r0 :: rows')). split; [done|].
    destruct (py_max_spec (stream_ordering <$> r0 :: rows')) as [Hin Hall]; [done|].
    split; [done|]. intros r Hr. apply Hall. by apply list_elem_of_fmap_2.
  - intros db R w Hkey Hrange.
    rewrite (appservice_run db bridge_service "s0" "s3" 0 w
               (mkToken None 0) (mkToken None 3)) by (reflexivity || discriminate).
    assert (Hrows : appservice_rows db 0 3 1000 = bridged_room R).
    { unfold appservice_rows. rewrite Hrange. vm_compute. reflexivity. }
    change (if 0 =? 0 then MAX_STREAM_SIZE else Z.max 0 MAX_STREAM_SIZE) with 1000.
    cbn [stream fst]. rewrite Hrows.
    assert (Hint : List.filter (app_service_interested bridge_service) (bridged_room R)
                   = [mkEvent "e2" R "m.room.member" (Some "@u:hs") false 2 2 2]).
    { vm_compute. reflexivity. }
    rewrite Hint. rewrite get_events_of_submseteq; [reflexivity | done |].
    rewrite <- Hint, <- Hrows.
    etrans; [apply sublist_submseteq, filter_sublist|]. apply select_submseteq.
Qed.

Lemma appservice_next_token_witness :
  (get_appservice_room_stream (bridged_room "!R") bridge_service
     "s0" "s3" 0 empty_world).1
  = Return ([mkEvent "e2" "!R" "m.room.member" (Some "@u:hs") false 2 2 2], "s3").
Proof.
  apply (proj2 appservice_next_token).
  - apply (bool_decide_unpack _). vm_compute. exact I.
  - reflexivity.
Defined.

(** ** Tokens as text *)

Lemma append_cons (c : ascii) (a b : string) :
  String c a +:+ b = String c (a +:+ b).
Proof. reflexivity. Qed.

Lemma append_snoc (d : string) (c : ascii) (s : string) :
  d +:+ String c s = (d +:+ String c "") +:+ s.
Proof. induction d as [|c' d IH]; [done|]. by rewrite !append_cons, IH. Qed.

Lemma append_empty (d : string) : d +:+ "" = d.
Proof. induction d as [|c d IH]; [done|]. by rewrite append_cons, IH. Qed.

Lemma dash_free_app (a b : string) :
  dash_free a = true -> dash_free b = true -> dash_free (a +:+ b) = true.
Proof.
  induction a as [|c a IH]; [done|]. rewrite append_cons. simpl.
  intros [Hc Ha]%andb_true_iff Hb. rewrite Hc. simpl. by apply IH.
Qed.

Lemma pretty_N_char_dash_free (x : N) :
  dash_free (String (pretty_N_char x) "") = true.
Proof. unfold pretty_N_char. by repeat case_match. Qed.

Lemma pretty_N_go_digits (x : N) (s : string) :
  exists d, pretty_N_go x s = d +:+ s /\ dash_free d = true
            /\ ((0 < x)%N -> d <> "").
Proof.
  revert s. induction (N.lt_wf_0 x) as [x _ IH]. intros s.
  destruct (decide (x = 0%N)) as [->|Hx].
  - exists "". rewrite pretty_N_go_0. split; [done|]. split; [done|]. lia.
  - rewrite pretty_N_go_step by lia.
    destruct (IH (x `div` 10)%N ltac:(apply N.div_lt; lia)
                (String (pretty_N_char (x `mod` 10)) s)) as (d & Hgo & Hd & _).
    rewrite Hgo.
    exists (d +:+ String (pretty_N_char (x `mod` 10)) "").
    split; [|split].
    + apply append_snoc.
    + apply dash_free_app; [done|apply pretty_N_char_dash_free].
    + intros _. by destruct d.
Qed.

Lemma pretty_N_digits (x : N) :
  dash_free (pretty x) = true /\ pretty x <> "".
Proof.
  unfold pretty, pretty_N. case_decide as Hx; [done|].
  destruct (pretty_N_go_digits x "") as (d & -> & Hd & Hne).
  rewrite append_empty.
  split; [done|]. apply Hne. lia.
Qed.

(** The text of an integer: an optional sign and a non-empty run of digits. *)
Lemma pretty_Z_shape (z : Z) :
  exists d, (pretty z = d \/ pretty z = String "-" d)
            /\ dash_free d = true /\ d <> "".
Proof.
  destruct z as [|p|p]; unfold pretty, pretty_Z.
  - exists "0". auto.
  - exists (pretty (N.pos p)). split; [by left|apply pretty_N_digits].
  - exists (pretty (N.pos p)). split; [by right|apply pretty_N_digits].
Qed.

Lemma split_at_dash (d d' x x' : string) :
  dash_free d = true -> dash_free d' = true ->
  d +:+ String "-" x = d' +:+ String "-" x' -> d = d' /\ x = x'.
Proof.
  revert d'. induction d as [|c d IH]; intros [|c' d'];
    rewrite ?append_cons; simpl.
  - intros _ _ [= ->]. done.
  - intros _ [Hc _]%andb_true_iff [= <- _]. done.
  - intros [Hc _]%andb_true_iff _ [= -> _]. done.
  - intros [_ Hd]%andb_true_iff [_ Hd']%andb_true_iff [= -> Heq].
    destruct (IH d' Hd Hd' Heq) as [-> ->]. done.
Qed.

Lemma topological_text_inj (a b a' b' : Z) :
  pretty a +:+ "-" +:+ pretty b = pretty a' +:+ "-" +:+ pretty b' ->
  a = a' /\ b = b'.
Proof.
  intros Heq.
  destruct (pretty_Z_shape a) as (d & Ha & Hd & Hne).
  destruct (pretty_Z_shape a') as (d' & Ha' & Hd' & Hne').
  assert (pretty a = pretty a' /\ pretty b = pretty b') as [Hp Hq].
  { destruct Ha as [Ha|Ha], Ha' as [Ha'|Ha']; rewrite Ha, Ha' in Heq |- *.
    - apply split_at_dash in Heq as [-> Hb]; done.
    - destruct d as [|c d]; [done|]. rewrite !append_cons in Heq. simpl in Hd.
      apply andb_true_iff in Hd as [Hc _]. by injection Heq as -> _.
    - destruct d' as [|c d']; [done|]. rewrite !append_cons in Heq. simpl in Hd'.
      apply andb_true_iff in Hd' as [Hc _]. by injection Heq as <- _.
    - rewrite !append_cons in Heq. injection Heq as Heq.
      apply split_at_dash in Heq as [-> Hb]; done. }
  split; by apply (inj pretty).
Qed.

Lemma token_str_inj (t1 t2 : RoomStreamToken) :
  token_str t1 = token_str t2 -> t1 = t2.
Proof.
  destruct t1 as [[a|] b], t2 as [[a'|] b']; unfold token_str; simpl.
  - intros Heq%(inj (String.append "t")).
    by apply topological_text_inj in Heq as [-> ->].
  - intros Heq. change (String "t" (pretty a +:+ "-" +:+ pretty b)
                        = String "s" (pretty b')) in Heq. discriminate.
  - intros Heq. change (String "s" (pretty b)
                        = String "t" (pretty a' +:+ "-" +:+ pretty b')) in Heq.
    discriminate.
  - intros Heq%(inj (String.append "s")). by apply (inj pretty) in Heq as ->.
Qed.

(** ** Annotations of adjacent events *)

Lemma adjacent_annotations_counterexample :
  exists e1 e2 tok w' m1 m2,
    paginate_room_events (seed_room "!R") "!R" "t0-0" None "f" 2 empty_world
    = (Return ([e1; e2], tok), w')
    /\ room_id e1 = room_id e2
    /\ metadata w' !! event_id e1 = Some m1
    /\ metadata w' !! event_id e2 = Some m2
    /\ after m1 <> before m2.
Proof.
  exists (seed_event "!R" 1), (seed_event "!R" 2).
  do 2 eexists. exists (mkMeta "t1-0" "t1-1" (1, 1)), (mkMeta "t2-1" "t2-2" (2, 2)).
  split; [vm_compute; reflexivity|].
  split; [reflexivity|].
  split; [vm_compute; reflexivity|].
  split; [vm_compute; reflexivity|].
  discriminate.
Qed.

(** C7, amended: in a batch of distinct events annotated by
    [_set_before_and_after], two adjacent events event[i], event[i+1] both
    carry their annotations, and event[i].after equals event[i+1].before
    exactly when the stream_ordering of row[i+1] is that of row[i] plus one
    and, under [topo_order], the two events have the same depth. *)
Theorem adjacent_annotations (events rows : list EventRow) (topo_order : bool)
  (h : gmap string InternalMetadata) (i : nat) (e e' r r' : EventRow) :
  NoDup (event_id <$> events) ->
  events !! i = Some e -> events !! S i = Some e' ->
  rows !! i = Some r -> rows !! S i = Some r' ->
  exists m m',
    _set_before_and_after events rows topo_order h !! event_id e = Some m
    /\ _set_before_and_after events rows topo_order h !! event_id e' = Some m'
    /\ (after m = before m'
        <-> stream_ordering r' = stream_ordering r + 1
            /\ (topo_order = true -> depth e = depth e')).
Proof.
  intros Hnd He He' Hr Hr'.
  exists (annotation topo_order e r), (annotation topo_order e' r').
  split; [by eapply set_before_and_after_lookup|].
  split; [by eapply set_before_and_after_lookup|].
  unfold annotation. cbn [after before]. split.
  - intros Heq%token_str_inj. destruct topo_order; injection Heq as Heq; split;
      try lia; congruence.
  - intros [Hs Hd]. destruct topo_order.
    + rewrite Hd by done. do 2 f_equal. lia.
    + do 2 f_equal. lia.
Qed.

Lemma adjacent_annotations_witness :
  exists m m',
    _set_before_and_after (seed_room "!R") (seed_room "!R") false ∅ !! "e3" = Some m
    /\ _set_before_and_after (seed_room "!R") (seed_room "!R") false ∅ !! "e4" = Some m'
    /\ (after m = before m' <-> 4 = 3 + 1 /\ (false = true -> 3 = 4)).
Proof.
  apply (adjacent_annotations (seed_room "!R") (seed_room "!R") false ∅ 2
           (seed_event "!R" 3) (seed_event "!R" 4)
           (seed_event "!R" 3) (seed_event "!R" 4)).
  - apply (bool_decide_unpack _). vm_compute. exact I.
  - reflexivity.
  - reflexivity.
  - reflexivity.
  - reflexivity.
Defined.

(** ** Positional annotation in the application service stream *)

(** Once the filter has dropped a row that comes before a kept one, some
    position of the filtered list holds a row that sits further down the
    unfiltered list. *)
Lemma filter_shifts {A : Type} (f : A -> bool) (l : list A) :
  (exists j k rj rk, (j < k)%nat /\ l !! j = Some rj /\ f rj = false
                     /\ l !! k = Some rk /\ f rk = true) ->
  exists i k e r, (i < k)%nat /\ List.filter f l !! i = Some e
                  /\ l !! k = Some e /\ l !! i = Some r.
Proof.
  induction l as [|x l IH]; intros (j & k & rj & rk & Hjk & Hj & Hfj & Hk & Hfk).
  { by rewrite lookup_nil in Hj. }
  destruct k as [|k]; [lia|]. simpl in Hk.
  destruct (f x) eqn:Hfx; simpl; rewrite Hfx.
  - destruct j as [|j]; simpl in Hj; [congruence|].
    destruct IH as (i & k0 & e & r & Hik & Hi & Hk0 & Hr).
    { exists j, k, rj, rk. repeat split; try done. lia. }
    exists (S i), (S k0), e, r. repeat split; try done. lia.
  - assert (Hin : rk ∈ List.filter f l).
    { apply filter_elem_of. split; [by eapply list_elem_of_lookup_2 | done]. }
    destruct (List.filter f l) as [|e0 rest] eqn:Hfl; [by apply elem_of_nil in Hin|].
    assert (He0 : e0 ∈ l).
    { apply (filter_elem_of f). rewrite Hfl. left. }
    apply list_elem_of_lookup_1 in He0 as [k0 Hk0].
    exists 0%nat, (S k0), e0, x. repeat split; try done. lia.
Qed.

Lemma distinct_positions {A B : Type} (g : A -> B) (l : list A) (i k : nat)
  (a b : A) :
  NoDup (g <$> l) -> l !! i = Some a -> l !! k = Some b -> i <> k -> g a <> g b.
Proof.
  intros Hnd Ha Hb Hik Heq. apply Hik.
  eapply (NoDup_lookup (g <$> l)); [done | |].
  - rewrite list_lookup_fmap, Ha. reflexivity.
  - rewrite list_lookup_fmap, Hb. simpl. by rewrite Heq.
Qed.

(** C9: in [get_appservice_room_stream] the i-th surviving event receives the
    annotation computed from the i-th row of the unfiltered SQL result; so,
    whenever the interest filter removes a row that precedes a surviving
    row, some returned event carries [before] and [after] cursors computed
    from the stream_ordering of another event, and they differ from the
    cursors of its own stream_ordering. *)
Theorem appservice_positional_annotation (db : list EventRow)
  (service : ApplicationService) (from_key to_key : string) (limit : Z)
  (w : world) (ft tt : RoomStreamToken) :
  NoDup (event_id <$> db) ->
  NoDup (stream_ordering <$> db) ->
  parse_stream_token from_key = inr ft ->
  parse_stream_token to_key = inr tt ->
  from_key <> to_key ->
  let rows := appservice_rows db (stream ft) (stream tt)
                (if limit =? 0 then MAX_STREAM_SIZE else Z.max limit MAX_STREAM_SIZE) in
  exists key w',
    get_appservice_room_stream db service from_key to_key limit w
    = (Return (List.filter (app_service_interested service) rows, key), w')
    /\ (forall i e r,
          List.filter (app_service_interested service) rows !! i = Some e ->
          rows !! i = Some r ->
          metadata w' !! event_id e = Some (annotation true e r))
    /\ ((exists j k rj rk,
           (j < k)%nat
           /\ rows !! j = Some rj /\ app_service_interested service rj = false
           /\ rows !! k = Some rk /\ app_service_interested service rk = true) ->
        exists i e r m,
          List.filter (app_service_interested service) rows !! i = Some e
          /\ rows !! i = Some r
          /\ event_id r <> event_id e
          /\ stream_ordering r <> stream_ordering e
          /\ metadata w' !! event_id e = Some m
          /\ before m = token_str (mkToken (Some (depth e)) (stream_ordering r - 1))
          /\ after m = token_str (mkToken (Some (depth e)) (stream_ordering r))
          /\ before m <> token_str (mkToken (Some (depth e)) (stream_ordering e - 1))
          /\ after m <> token_str (mkToken (Some (depth e)) (stream_ordering e))).
Proof.
  intros Hkey Hstream Hf Ht Hne rows.
  assert (Hrows : rows ⊆+ db) by apply select_submseteq.
  assert (Hevs : List.filter (app_service_interested service) rows ⊆+ db).
  { etrans; [apply sublist_submseteq, filter_sublist | done]. }
  assert (Hpos : forall i e r,
            List.filter (app_service_interested service) rows !! i = Some e ->
            rows !! i = Some r ->
            _set_before_and_after (List.filter (app_service_interested service) rows)
              rows true (metadata w) !! event_id e = Some (annotation true e r)).
  { intros i e r He Hr. eapply set_before_and_after_lookup; [|done..].
    by apply (rows_event_id_nodup db). }
  do 2 eexists. split; [|split].
  - rewrite (appservice_run db service _ _ limit w ft tt Hf Ht Hne).
    fold rows. rewrite (get_events_of_submseteq db Hkey _ Hevs). reflexivity.
  - exact Hpos.
  - intros Hdrop. apply filter_shifts in Hdrop as (i & k & e & r & Hik & He & Hk & Hr).
    assert (Hid : event_id r <> event_id e).
    { eapply (distinct_positions event_id rows i k); try done; [|lia].
      by apply (rows_event_id_nodup db). }
    assert (Hso : stream_ordering r <> stream_ordering e).
    { eapply (distinct_positions stream_ordering rows i k); try done; [|lia].
      by eapply fmap_nodup_submseteq. }
    exists i, e, r, (annotation true e r).
    repeat split; try done.
    + exact (Hpos i e r He Hr).
    + cbn [annotation before]. intros Heq%token_str_inj. injection Heq as Heq. lia.
    + cbn [annotation after]. intros Heq%token_str_inj. injection Heq as Heq. lia.
Qed.

Lemma appservice_positional_annotation_witness :
  exists i e r m w',
    (get_appservice_room_stream (bridged_room "!R") bridge_service
       "s0" "s3" 0 empty_world).2 = w'
    /\ List.filter (app_service_interested bridge_service)
         (appservice_rows (bridged_room "!R") 0 3 1000) !! i = Some e
    /\ appservice_rows (bridged_room "!R") 0 3 1000 !! i = Some r
    /\ stream_ordering r <> stream_ordering e
    /\ metadata w' !! event_id e = Some m
    /\ after m = token_str (mkToken (Some (depth e)) (stream_ordering r)).
Proof.
  destruct (appservice_positional_annotation (bridged_room "!R") bridge_service
              "s0" "s3" 0 empty_world (mkToken None 0) (mkToken None 3))
    as (key & w' & Hrun & _ & Hshift).
  - apply (bool_decide_unpack _). vm_compute. exact I.
  - apply (bool_decide_unpack _). vm_compute. exact I.
  - reflexivity.
  - reflexivity.
  - discriminate.
  - destruct Hshift as (i & e & r & m & He & Hr & _ & Hso & Hm & _ & Ha & _).
    { exists 0%nat, 1%nat. do 2 eexists.
      split; [lia|]. split; [vm_compute; reflexivity|].
      split; [vm_compute; reflexivity|].
      split; [vm_compute; reflexivity|]. vm_compute. reflexivity. }
    exists i, e, r, m, w'. rewrite Hrun. repeat split; done.
Defined.

(** ** Outliers *)

Lemma strongly_sorted_lookup {A : Type} (R : relation A) (l : list A) (j i : nat)
  (x y : A) :
  StronglySorted R l -> l !! j = Some x -> l !! i = Some y -> (j < i)%nat -> R x y.
Proof.
  intros Hl. revert j i. induction Hl as [|a l Hl IH Hall]; intros j i Hj Hi Hji.
  { by rewrite lookup_nil in Hj. }
  destruct i as [|i]; [lia|]. simpl in Hi.
  destruct j as [|j]; simpl in Hj.
  - injection Hj as ->. rewrite Forall_forall in Hall. apply Hall.
    by eapply list_elem_of_lookup_2.
  - eapply IH; [done..|lia].
Qed.

Lemma filter_all {A : Type} (f : A -> bool) (l : list A) :
  (forall x, x ∈ l -> f x = true) -> List.filter f l = l.
Proof.
  induction l as [|a l IH]; intros Hall; simpl; [done|].
  rewrite (Hall a) by left. f_equal. apply IH. intros x Hx. apply Hall. by right.
Qed.

Lemma filter_perm {A : Type} (f : A -> bool) (l k : list A) :
  l ≡ₚ k -> List.filter f l ≡ₚ List.filter f k.
Proof.
  induction 1 as [|x l k _ IH|x y l|l k m _ IH1 _ IH2]; simpl.
  - done.
  - destruct (f x); [by constructor | done].
  - destruct (f x), (f y); try done. apply perm_swap.
  - by etrans.
Qed.

(** In a sorted list the rows up to a position all count as not after it. *)
Lemma sorted_prefix_count {A : Type} (R : relation A) `{!RelDecision R}
  `{!Reflexive R} (l : list A) (i : nat) (x : A) :
  StronglySorted R l -> l !! i = Some x ->
  (S i <= length (List.filter (fun r => bool_decide (R r x)) l))%nat.
Proof.
  intros Hl Hi.
  rewrite <- (take_drop (S i) l) at 1. rewrite List.filter_app, length_app.
  rewrite filter_all.
  - rewrite length_take. apply lookup_lt_Some in Hi. lia.
  - intros r [j [Hj Hlt]]%elem_of_take. apply bool_decide_eq_true_2.
    destruct (decide (j = i)) as [->|Hne].
    + rewrite Hi in Hj. by injection Hj as ->.
    + eapply (strongly_sorted_lookup R l j i); [done..|lia].
Qed.

#[global] Instance by_composite_refl : Reflexive by_composite.
Proof. unfold by_composite. intros a. lia. Qed.

#[global] Instance directed_refl (o : sort_order) (R : relation EventRow)
  `{!Reflexive R} : Reflexive (directed o R).
Proof. destruct o; unfold directed, flip; done. Qed.

(** A selected row is kept by LIMIT when no more rows than the limit sort at
    or before it. *)
Lemma limit_keeps (R : relation EventRow) `{!RelDecision R}
  `{!Transitive R, !Total R, !Reflexive R} (o : sort_order) (n : Z)
  (P : EventRow -> bool) (db : list EventRow) (x : EventRow) :
  x ∈ db -> P x = true ->
  n < 0 \/ Z.of_nat (length (List.filter
                               (fun r => P r && bool_decide (directed o R r x)) db)) <= n ->
  x ∈ sql_limit n (order_by R o (List.filter P db)).
Proof.
  intros Hx HP Hn.
  assert (Hin : x ∈ order_by R o (List.filter P db)).
  { rewrite order_by_perm. by apply filter_elem_of. }
  unfold sql_limit. destruct (Z.ltb_spec n 0) as [Hneg|Hpos]; [done|].
  destruct Hn as [Hn|Hn]; [lia|].
  apply list_elem_of_lookup_1 in Hin as [i Hi].
  apply elem_of_take. exists i. split; [done|].
  pose proof (sorted_prefix_count (directed o R) _ i x
                (StronglySorted_merge_sort _ _) Hi) as Hcount.
  rewrite filter_andb in Hn.
  rewrite <- (Permutation_length
                (filter_perm (fun r => bool_decide (directed o R r x)) _ _
                   (order_by_perm R o (List.filter P db)))) in Hn.
  unfold order_by in Hn. lia.
Qed.

Lemma outlier_exclusion_counterexample :
  exists evs key e,
    (get_appservice_room_stream outlier_room room_service "s0" "s3" 0 empty_world).1
    = Return (evs, key)
    /\ e ∈ evs /\ outlier e = true.
Proof.
  exists outlier_room, "s3", (mkEvent "o1" "!R" "m.room.message" None true 1 1 1).
  split; [vm_compute; reflexivity|]. split; [left | reflexivity].
Qed.

Section Outliers.

Variable db : list EventRow.
Hypothesis event_id_key : NoDup (event_id <$> db).

Lemma events_around_keep (room event : string) (before_limit after_limit : Z)
  (w w' : world) (res : EventsAround) :
  get_events_around db room event before_limit after_limit w = (Return res, w') ->
  exists pin,
    _simple_select_one_txn db room event = inr pin
    /\ forall o, o ∈ db ->
         (before_pin room pin o = true ->
          rank_before db room pin o <= before_limit -> o ∈ events_before res)
         /\ (after_pin room pin o = true ->
             rank_after db room pin o <= after_limit -> o ∈ events_after res).
Proof using event_id_key.
  intros (pin & Hpin & -> & ->)%events_around_returns.
  exists pin. split; [done|]. intros o Ho.
  rewrite !get_events_of_submseteq by (done || apply select_submseteq).
  split; intros Hside Hrank.
  - apply (limit_keeps by_composite DESC before_limit (before_pin room pin));
      [done..|]. right. exact Hrank.
  - apply (limit_keeps by_composite ASC after_limit (after_pin room pin));
      [done..|]. right. exact Hrank.
Qed.

Lemma stream_for_room_no_outlier (cache : string -> Z -> bool) (room : string)
  (from_key : option string) (to_key : string) (limit : Z) (order : sort_order)
  (w w' : world) (evs : list EventRow) (key : option string) (e : EventRow) :
  get_room_events_stream_for_room db cache room from_key to_key limit order w
  = (Return (evs, key), w') ->
  e ∈ evs -> outlier e = false.
Proof using event_id_key.
  intros [->|(rows & -> & Hrows)]%stream_for_room_returns He.
  { by apply elem_of_nil in He. }
  assert (Hin : e ∈ _get_events_txn db (event_id <$> rows)).
  { destruct order; [done | by apply elem_of_reverse]. }
  clear He. destruct Hrows as [(f & t & _ & ->)|(t & _ & ->)];
    rewrite get_events_of_submseteq in Hin by (done || apply select_submseteq);
    apply select_elem_of in Hin as [_ Hp]; by destruct (outlier e), (String.eqb (room_id e) room).
Qed.

Lemma paginate_no_outlier (room from_key : string) (to_key : option string)
  (direction : string) (limit : Z) (w w' : world) (evs : list EventRow)
  (tok : string) (e : EventRow) :
  paginate_room_events db room from_key to_key direction limit w
  = (Return (evs, tok), w') ->
  e ∈ evs -> outlier e = false.
Proof using event_id_key.
  intros [bounds ->]%paginate_returns. rewrite paginate_rows_select.
  rewrite get_events_of_submseteq by (done || apply select_submseteq).
  intros [_ Hp]%select_elem_of.
  by destruct (outlier e), (String.eqb (room_id e) room).
Qed.

Lemma recent_events_no_outlier (room : string) (limit : Z) (end_key : string)
  (from_key : option string) (w w' : world) (evs : list EventRow)
  (tok : string * string) (e : EventRow) :
  get_recent_events_for_room db room limit end_key from_key w
  = (Return (evs, tok), w') ->
  e ∈ evs -> outlier e = false.
Proof using event_id_key.
  intros (f & t & ->)%recent_events_returns.
  rewrite get_events_of_submseteq;
    [|done|rewrite reverse_Permutation; apply select_submseteq].
  intros [_ Hp]%elem_of_reverse%select_elem_of.
  destruct (outlier e); [|done].
  by rewrite andb_false_r in Hp.
Qed.

End Outliers.

(** C10, amended: the two context-window queries of [get_events_around] place
    no condition on the outlier flag: an outlier event of the room that lies
    strictly before (respectively after) the pinned event in the composite
    order, with no more rows than the limit between the pinned event and
    itself, is included in [events_before] (respectively [events_after]);
    unlike [get_room_events_stream_for_room], [paginate_room_events] and
    [get_recent_events_for_room], which return no outlier. *)
Theorem context_window_includes_outliers (db : list EventRow) :
  NoDup (event_id <$> db) ->
  (forall room event before_limit after_limit w w' res,
     get_events_around db room event before_limit after_limit w = (Return res, w') ->
     exists pin,
       _simple_select_one_txn db room event = inr pin
       /\ forall o, o ∈ db -> outlier o = true ->
            (before_pin room pin o = true ->
             rank_before db room pin o <= before_limit -> o ∈ events_before res)
            /\ (after_pin room pin o = true ->
                rank_after db room pin o <= after_limit -> o ∈ events_after res))
  /\ (forall cache room from_key to_key limit order w w' evs key,
        get_room_events_stream_for_room db cache room from_key to_key limit order w
        = (Return (evs, key), w') ->
        forall e, e ∈ evs -> outlier e = false)
  /\ (forall room from_key to_key direction limit w w' evs tok,
        paginate_room_events db room from_key to_key direction limit w
        = (Return (evs, tok), w') ->
        forall e, e ∈ evs -> outlier e = false)
  /\ (forall room limit end_key from_key w w' evs tok,
        get_recent_events_for_room db room limit end_key from_key w
        = (Return (evs, tok), w') ->
        forall e, e ∈ evs -> outlier e = false).
Proof.
  intros Hkey. split; [|split; [|split]].
  - intros room event bl al w w' res Hrun.
    destruct (events_around_keep db Hkey _ _ _ _ _ _ _ Hrun) as (pin & Hpin & Hkeep).
    exists pin. split; [done|]. intros o Ho _. by apply Hkeep.
  - intros. by eapply stream_for_room_no_outlier.
  - intros. by eapply paginate_no_outlier.
  - intros. by eapply recent_events_no_outlier.
Qed.

Lemma context_window_includes_outliers_witness :
  exists res,
    (get_events_around outlier_room "!R" "e2" 1 1 empty_world).1 = Return res
    /\ mkEvent "o1" "!R" "m.room.message" None true 1 1 1 ∈ events_before res
    /\ mkEvent "o3" "!R" "m.room.message" None true 3 3 3 ∈ events_after res.
Proof.
  assert (Hkey : NoDup (event_id <$> outlier_room)).
  { apply (bool_decide_unpack _). vm_compute. exact I. }
  destruct (context_window_includes_outliers outlier_room Hkey) as [Haround _].
  destruct (get_events_around outlier_room "!R" "e2" 1 1 empty_world)
    as [[res|e] w'] eqn:Hrun; [|vm_compute in Hrun; discriminate Hrun].
  destruct (Haround _ _ _ _ _ _ _ Hrun) as (pin & Hpin & Hkeep).
  vm_compute in Hpin. injection Hpin as <-.
  exists res. split; [reflexivity|]. split.
  - apply Hkeep; [left | reflexivity | reflexivity | vm_compute; discriminate].
  - apply Hkeep; [right; right; left | reflexivity | reflexivity
                  | vm_compute; discriminate].
Defined.

(** ** The dependency accessors *)

Example cyclic_builders_fail :
  (Server._get sample_builders "HomeServer" 5 "auth" fresh_server).1
  = Server.Failed (ValueError "Cyclic dependency while building auth").
Proof. vm_compute. reflexivity. Qed.

Example independent_builder_succeeds :
  Server._get sample_builders "HomeServer" 1 "clock" fresh_server
  = (Server.Done "Clock()", Server.mkHS {[ "clock" := "Clock()" ]} ∅).
Proof.
  vm_compute. reflexivity.
Qed.

(** C8: resolving a dependency d that is not yet an attribute and has a
    builder.  When d is not in flight, the builder is run on the home server
    with d marked in [_building]; a failure of the builder is the failure of
    the resolution, and on success the instance is stored under d and the
    mark removed.  When d is in flight, the resolution fails with the cyclic
    dependency error that names d, and changes nothing.  After a successful
    resolution d is an attribute and no longer in flight, and every later
    resolution of d returns the same instance and leaves the home server as
    it is, whatever the builders: no builder runs again. *)
Theorem lazy_dependency_resolution {V : Type}
  (builders : string -> option (Server.builder V)) (cls d : string)
  (build : Server.builder V) (hs : Server.HomeServer V) (fuel : nat) :
  builders d = Some build ->
  Server.attrs hs !! d = None ->
  (Server._building hs !! d = None ->
     Server._building (Server.mark hs d) !! d = Some 1
     /\ (forall dep hs',
           build (Server._get builders cls fuel) (Server.mark hs d)
           = (Server.Done dep, hs') ->
           is_Some (Server._building hs' !! d) ->
           Server._get builders cls (S fuel) d hs
           = (Server.Done dep, Server.unmark (Server.setattr hs' d dep) d))
     /\ (forall e hs',
           build (Server._get builders cls fuel) (Server.mark hs d)
           = (Server.Failed e, hs') ->
           Server._get builders cls (S fuel) d hs = (Server.Failed e, hs')))
  /\ (is_Some (Server._building hs !! d) ->
        Server._get builders cls (S fuel) d hs
        = (Server.Failed
             (ValueError ("Cyclic dependency while building " +:+ d)), hs))
  /\ (forall dep hs',
        Server._get builders cls (S fuel) d hs = (Server.Done dep, hs') ->
        Server.attrs hs' !! d = Some dep
        /\ Server._building hs' !! d = None
        /\ forall builders' cls' n,
             Server._get builders' cls' (S n) d hs' = (Server.Done dep, hs')).
Proof.
  intros Hb Hattr. split; [|split].
  - intros Hfree. split; [apply lookup_insert_eq|]. split.
    + intros dep hs' Hrun [z Hz]. simpl. rewrite Hattr, Hb, Hfree, Hrun.
      simpl. by rewrite Hz.
    + intros e hs' Hrun. simpl. by rewrite Hattr, Hb, Hfree, Hrun.
  - intros [z Hz]. simpl. by rewrite Hattr, Hb, Hz.
  - intros dep hs'. simpl. rewrite Hattr, Hb.
    destruct (Server._building hs !! d) as [z|]; [intros [=]|].
    destruct (build (Server._get builders cls fuel) (Server.mark hs d))
      as [[v|e|] hs2]; [|intros [=]..].
    simpl. destruct (Server._building hs2 !! d) as [z|]; intros [= <- <-].
    split; [apply lookup_insert_eq|]. split; [apply lookup_delete_eq|].
    intros builders' cls' n. simpl. by rewrite lookup_insert_eq.
Qed.

Lemma lazy_dependency_resolution_witness :
  Server._get sample_builders "HomeServer" 1 "clock" fresh_server
  = (Server.Done "Clock()",
     Server.unmark
       (Server.setattr (Server.mark fresh_server "clock") "clock" "Clock()")
       "clock")
  /\ Server._get sample_builders "HomeServer" 1 "auth"
       (Server.mark fresh_server "auth")
     = (Server.Failed (ValueError "Cyclic dependency while building auth"),
        Server.mark fresh_server "auth")
  /\ forall n,
       Server._get sample_builders "HomeServer" (S n) "clock"
         (Server.mkHS {[ "clock" := "Clock()" ]} ∅)
       = (Server.Done "Clock()", Server.mkHS {[ "clock" := "Clock()" ]} ∅).
Proof.
  split; [|split].
  - apply (lazy_dependency_resolution sample_builders "HomeServer" "clock"
             (fun _ hs => (Server.Done "Clock()", hs)) fresh_server 0);
      [reflexivity | reflexivity | reflexivity | reflexivity |].
    exists 1. reflexivity.
  - apply (lazy_dependency_resolution sample_builders "HomeServer" "auth"
             (fun get hs => get "handlers" hs) (Server.mark fresh_server "auth") 0);
      [reflexivity | reflexivity |].
    exists 1. reflexivity.
  - intros n.
    apply (lazy_dependency_resolution sample_builders "HomeServer" "clock"
             (fun _ hs => (Server.Done "Clock()", hs)) fresh_server 0
             eq_refl eq_refl).
    apply independent_builder_succeeds.
Defined.

(** ** Tokens read back *)

Lemma digit_of_pretty_char (d : N) :
  (d < 10)%N -> digit_of (pretty_N_char d) = Some (Z.of_N d).
Proof.
  intros Hd.
  assert (d = 0 \/ d = 1 \/ d = 2 \/ d = 3 \/ d = 4 \/ d = 5 \/ d = 6 \/ d = 7
          \/ d = 8 \/ d = 9)%N as Hcases by lia.
  repeat (destruct Hcases as [->|Hcases]; [reflexivity|]). by subst.
Qed.

Lemma parse_digits_cons (acc d : Z) (c : ascii) (s : string) :
  digit_of c = Some d -> parse_digits acc (String c s) = parse_digits (10 * acc + d) s.
Proof. intros Hc. simpl. by rewrite Hc. Qed.

Lemma parse_digits_pretty_go (x : N) (s : string) :
  parse_digits 0 (pretty_N_go x s) = parse_digits (Z.of_N x) s.
Proof.
  revert s. induction (N.lt_wf_0 x) as [x _ IH]. intros s.
  destruct (decide (x = 0%N)) as [->|Hx]; [by rewrite pretty_N_go_0|].
  rewrite pretty_N_go_step by lia.
  rewrite IH by (apply N.div_lt; lia).
  rewrite (parse_digits_cons _ (Z.of_N (x `mod` 10)))
    by (apply digit_of_pretty_char, N.mod_lt; lia).
  f_equal. pose proof (N.div_mod x 10). lia.
Qed.

Lemma parse_int_undashed (c : ascii) (r : string) :
  c <> "-"%char -> parse_int (String c r) = parse_digits 0 (String c r).
Proof.
  intros Hc. destruct c as [[] [] [] [] [] [] [] []]; try reflexivity.
  by destruct Hc.
Qed.

Lemma parse_int_pretty_N (x : N) : parse_int (pretty x) = Some (Z.of_N x).
Proof.
  destruct (pretty_N_digits x) as [Hfree Hne].
  destruct (pretty x) as [|c r] eqn:Hp; [done|].
  simpl in Hfree. apply andb_true_iff in Hfree as [Hc _].
  rewrite parse_int_undashed
    by (intros ->; by rewrite Ascii.eqb_refl in Hc).
  rewrite <- Hp. unfold pretty, pretty_N. case_decide as Hx; [by subst|].
  rewrite parse_digits_pretty_go. reflexivity.
Qed.

Lemma parse_int_pretty (z : Z) : parse_int (pretty z) = Some z.
Proof.
  destruct z as [|p|p]; unfold pretty, pretty_Z.
  - reflexivity.
  - apply (parse_int_pretty_N (N.pos p)).
  - destruct (pretty_N_digits (N.pos p)) as [_ Hne].
    change (pretty p) with (pretty (N.pos p)).
    pose proof (parse_int_pretty_N (N.pos p)) as Hp.
    destruct (pretty (N.pos p)) as [|c r] eqn:Hs; [done|].
    rewrite append_cons. change ("" +:+ String c r) with (String c r).
    destruct (pretty_N_digits (N.pos p)) as [Hfree _]. rewrite Hs in Hfree.
    simpl in Hfree. apply andb_true_iff in Hfree as [Hc _].
    rewrite parse_int_undashed in Hp
      by (intros ->; by rewrite Ascii.eqb_refl in Hc).
    change (parse_int (String "-" (String c r)))
      with (Z.opp <$> parse_digits 0 (String c r)).
    by rewrite Hp.
Qed.

Lemma split_dash_digits (d acc x : string) :
  dash_free d = true -> acc <> "" \/ d <> "" ->
  split_dash acc (d +:+ String "-" x) = Some (acc +:+ d, x).
Proof.
  revert acc. induction d as [|c d IH]; intros acc Hfree Hne.
  - destruct Hne as [Hacc|]; [|done].
    change ("" +:+ String "-" x) with (String "-" x). simpl.
    destruct acc as [|a acc]; [done|]. simpl. by rewrite append_empty.
  - rewrite append_cons. simpl in Hfree. apply andb_true_iff in Hfree as [Hc Hd].
    simpl. apply negb_true_iff in Hc. rewrite Hc. simpl.
    etrans; [apply IH; [done|left; by destruct acc]|].
    by rewrite <- append_snoc.
Qed.

Lemma split_dash_pretty (a b : Z) :
  split_dash "" (pretty a +:+ "-" +:+ pretty b) = Some (pretty a, pretty b).
Proof.
  change ("-" +:+ pretty b) with (String "-" (pretty b)).
  destruct (pretty_Z_shape a) as (d & [Ha|Ha] & Hfree & Hne); rewrite Ha.
  - by rewrite split_dash_digits by auto.
  - rewrite append_cons. simpl.
    by rewrite (split_dash_digits d "-") by auto.
Qed.

(** Reading back the text of a token gives the token. *)
Lemma parse_token_str (t : RoomStreamToken) : parse (token_str t) = inr t.
Proof.
  destruct t as [[a|] b]; unfold token_str, parse; cbn [topological stream].
  - rewrite (append_cons "t"). change ("" +:+ ?x) with x.
    cbn iota. rewrite split_dash_pretty, !parse_int_pretty. reflexivity.
  - rewrite (append_cons "s"). change ("" +:+ ?x) with x.
    cbn iota. rewrite parse_int_pretty. reflexivity.
Qed.

(** ** More on get_room_events_stream_for_room *)

Lemma fold_min_spec (xs : list Z) (x : Z) :
  (fold_left Z.min xs x = x \/ fold_left Z.min xs x ∈ xs)
  /\ fold_left Z.min xs x <= x
  /\ (forall y, y ∈ xs -> fold_left Z.min xs x <= y).
Proof.
  revert x. induction xs as [|a xs IH]; intros x; simpl.
  - split; [by left|]. split; [lia|]. intros y Hy. by apply elem_of_nil in Hy.
  - destruct (IH (Z.min x a)) as (Hin & Hle & Hall). split; [|split].
    + destruct Hin as [Heq|Hin]; [|right; by right].
      destruct (Z.min_spec x a) as [[_ Hm]|[_ Hm]]; rewrite Hm in Heq |- *.
      * by left.
      * right. rewrite Heq. left.
    + lia.
    + intros y [->|Hy]%elem_of_cons; [lia|by apply Hall].
Qed.

Lemma py_min_spec (xs : list Z) :
  xs <> [] -> py_min xs ∈ xs /\ (forall y, y ∈ xs -> py_min xs <= y).
Proof.
  destruct xs as [|x xs]; [done|]. intros _. unfold py_min.
  destruct (fold_min_spec xs x) as (Hin & Hle & Hall). split.
  - destruct Hin as [->|Hin]; [left | by right].
  - intros y [->|Hy]%elem_of_cons; [done|by apply Hall].
Qed.

Lemma sql_limit_length {A : Type} (n : Z) (l : list A) :
  0 <= n -> Z.of_nat (length (sql_limit n l)) <= n.
Proof.
  intros Hn. unfold sql_limit. destruct (Z.ltb_spec n 0); [lia|].
  rewrite length_take. lia.
Qed.

Lemma stream_for_room_inv (db : list EventRow) (cache : string -> Z -> bool)
  (room k to_key : string) (limit : Z) (order : sort_order) (w w' : world)
  (evs : list EventRow) (key : option string) (ft tt : RoomStreamToken) :
  parse_stream_token k = inr ft ->
  parse_stream_token to_key = inr tt ->
  get_room_events_stream_for_room db cache room (Some k) to_key limit order w
  = (Return (evs, key), w') ->
  (evs = [] /\ key = Some k)
  \/ (let rows := stream_rows db room (stream ft) (stream tt) limit order in
      evs = match order with
            | DESC => reverse (_get_events_txn db (event_id <$> rows))
            | ASC => _get_events_txn db (event_id <$> rows)
            end
      /\ key = match rows with
               | [] => Some k
               | _ :: _ => Some ("s" +:+ pretty (py_min (stream_ordering <$> rows)))
               end).
Proof.
  intros Hf Ht. unfold get_room_events_stream_for_room. run_monad.
  rewrite Hf, Ht. simpl. intros H.
  case_bool_decide; [left; by injection H as <- <- _|].
  destruct (stream ft =? 0); simpl in H.
  - injection H as <- <- _. by right.
  - destruct (cache room (stream ft)); simpl in H.
    + injection H as <- <- _. by right.
    + injection H as <- <- _. by left.
Qed.

(** X1: a read whose [from_key] has a non-zero stream position, for a room
    whose change cache reports no change since then, returns no events and
    [from_key], after the one question to the cache: no database interaction
    and no fetch take place and no metadata is written. *)
Theorem unchanged_room_short_circuit (db : list EventRow)
  (cache : string -> Z -> bool) (room k to_key : string) (limit : Z)
  (order : sort_order) (w : world) (ft tt : RoomStreamToken) :
  parse_stream_token k = inr ft ->
  parse_stream_token to_key = inr tt ->
  k <> to_key ->
  stream ft <> 0 ->
  cache room (stream ft) = false ->
  get_room_events_stream_for_room db cache room (Some k) to_key limit order w
  = (Return ([], Some k),
     mkWorld (metadata w) (effects w ++ [CacheHasEntityChanged room (stream ft)])).
Proof.
  intros Hf Ht Hne Hnz Hcache. unfold get_room_events_stream_for_room. run_monad.
  rewrite Hf, Ht. simpl. rewrite bool_decide_eq_false_2 by congruence.
  apply Z.eqb_neq in Hnz. rewrite Hnz. simpl. rewrite Hcache. reflexivity.
Qed.

Lemma unchanged_room_short_circuit_witness :
  get_room_events_stream_for_room (seed_room "!R") (fun _ _ => false) "!R"
    (Some "s2") "s5" 100 DESC empty_world
  = (Return ([], Some "s2"), mkWorld ∅ [CacheHasEntityChanged "!R" 2]).
Proof.
  apply (unchanged_room_short_circuit (seed_room "!R") (fun _ _ => false)
           "!R" "s2" "s5" 100 DESC empty_world (mkToken None 2) (mkToken None 5));
    (reflexivity || discriminate).
Defined.

(** X2: with a [from_key], every event that the read returns is an event of
    the room that is not an outlier and whose stream_ordering lies in the
    half-open interval from the stream position of [from_key], excluded, to
    that of [to_key], included; no event is returned twice; and with a limit
    that is not negative there are at most [limit] of them. *)
Theorem stream_for_room_window (db : list EventRow) (cache : string -> Z -> bool)
  (room k to_key : string) (limit : Z) (order : sort_order) (w w' : world)
  (evs : list EventRow) (key : option string) (ft tt : RoomStreamToken) :
  NoDup (event_id <$> db) ->
  parse_stream_token k = inr ft ->
  parse_stream_token to_key = inr tt ->
  get_room_events_stream_for_room db cache room (Some k) to_key limit order w
  = (Return (evs, key), w') ->
  (forall e, e ∈ evs ->
     e ∈ db /\ room_id e = room /\ outlier e = false
     /\ stream ft < stream_ordering e <= stream tt)
  /\ NoDup (event_id <$> evs)
  /\ (0 <= limit -> Z.of_nat (length evs) <= limit).
Proof.
  intros Hkey Hf Ht Hrun.
  destruct (stream_for_room_inv _ _ _ _ _ _ _ _ _ _ _ _ _ Hf Ht Hrun)
    as [[-> _]|[-> _]].
  { split; [|split].
    - intros e He. by apply elem_of_nil in He.
    - constructor.
    - simpl. lia. }
  rewrite get_events_of_submseteq by (done || apply select_submseteq).
  set (rows := stream_rows db room (stream ft) (stream tt) limit order).
  assert (Hperm : match order with DESC => reverse rows | ASC => rows end ≡ₚ rows).
  { destruct order; [done | apply reverse_Permutation]. }
  split; [|split].
  - intros e He. rewrite Hperm in He.
    apply select_elem_of in He as [Hdb Hp].
    repeat (apply andb_true_iff in Hp as [Hp ?]).
    split; [done|]. split; [by apply String.eqb_eq|].
    split; [by destruct (outlier e)|]. lia.
  - rewrite Hperm. apply (rows_event_id_nodup db Hkey), select_submseteq.
  - intros Hlimit. rewrite Hperm. by apply sql_limit_length.
Qed.

Lemma stream_for_room_window_witness :
  (forall e, e ∈ seed_event "!R" <$> [3; 4; 5] ->
     e ∈ seed_room "!R" /\ room_id e = "!R" /\ outlier e = false
     /\ 2 < stream_ordering e <= 5)
  /\ NoDup (event_id <$> (seed_event "!R" <$> [3; 4; 5]))
  /\ (0 <= 100 -> Z.of_nat (length (seed_event "!R" <$> [3; 4; 5])) <= 100).
Proof.
  assert (Hkey : NoDup (event_id <$> seed_room "!R")).
  { apply (bool_decide_unpack _). vm_compute. exact I. }
  apply (stream_for_room_window (seed_room "!R") always_changed "!R" "s2" "s5"
           100 DESC empty_world
           (get_room_events_stream_for_room (seed_room "!R") always_changed "!R"
              (Some "s2") "s5" 100 DESC empty_world).2
           (seed_event "!R" <$> [3; 4; 5]) (Some "s3")
           (mkToken None 2) (mkToken None 5) Hkey eq_refl eq_refl).
  vm_compute. reflexivity.
Defined.

(** X3: with a [from_key], when the read returns any event, for 'ASC' and
    for 'DESC' alike the returned token is "s" followed by the
    stream_ordering of the first event of the returned list, which is the
    least stream_ordering returned. *)
Theorem stream_for_room_token_is_first (db : list EventRow)
  (cache : string -> Z -> bool) (room k to_key : string) (limit : Z)
  (order : sort_order) (w w' : world) (e0 : EventRow) (evs : list EventRow)
  (key : option string) :
  NoDup (event_id <$> db) ->
  get_room_events_stream_for_room db cache room (Some k) to_key limit order w
  = (Return (e0 :: evs, key), w') ->
  key = Some ("s" +:+ pretty (stream_ordering e0))
  /\ forall e, e ∈ evs -> stream_ordering e0 <= stream_ordering e.
Proof.
  intros Hkey Hrun.
  assert (Hsorted : StronglySorted by_stream (e0 :: evs))
    by apply (stream_for_room_order db Hkey _ _ _ _ _ _ _ _ _ _ Hrun).
  apply StronglySorted_inv in Hsorted as [_ Hhead]. rewrite Forall_forall in Hhead.
  split; [|exact Hhead].
  destruct (parse_stream_token k) as [e|ft] eqn:Hf.
  { unfold get_room_events_stream_for_room in Hrun. run_monad. by rewrite Hf in Hrun. }
  destruct (parse_stream_token to_key) as [e|tt] eqn:Ht.
  { unfold get_room_events_stream_for_room in Hrun. run_monad.
    by rewrite Hf, Ht in Hrun. }
  destruct (stream_for_room_inv _ _ _ _ _ _ _ _ _ _ _ _ _ Hf Ht Hrun)
    as [[? _]|[Hevs ->]]; [done|].
  rewrite get_events_of_submseteq in Hevs by (done || apply select_submseteq).
  set (rows := stream_rows db room (stream ft) (stream tt) limit order) in *.
  assert (Hperm : e0 :: evs ≡ₚ rows).
  { rewrite Hevs. destruct order; [done | apply reverse_Permutation]. }
  destruct rows as [|r rows'] eqn:Hrows.
  { by apply Permutation_nil_r in Hperm. }
  do 3 f_equal.
  destruct (py_min_spec (stream_ordering <$> r :: rows')) as [Hin Hmin]; [done|].
  assert (Hle : py_min (stream_ordering <$> r :: rows') <= stream_ordering e0).
  { apply Hmin, list_elem_of_fmap_2. rewrite <- Hperm. left. }
  apply list_elem_of_fmap in Hin as (e & Heq & He).
  rewrite <- Hperm in He. apply elem_of_cons in He as [->|He]; [done|].
  specialize (Hhead e He). unfold by_stream in Hhead. lia.
Qed.

Lemma stream_for_room_token_is_first_witness :
  Some "s3" = Some ("s" +:+ pretty (stream_ordering (seed_event "!R" 3)))
  /\ forall e, e ∈ seed_event "!R" <$> [4; 5] ->
       stream_ordering (seed_event "!R" 3) <= stream_ordering e.
Proof.
  assert (Hkey : NoDup (event_id <$> seed_room "!R")).
  { apply (bool_decide_unpack _). vm_compute. exact I. }
  apply (stream_for_room_token_is_first (seed_room "!R") always_changed "!R"
           "s2" "s5" 100 DESC empty_world
           (get_room_events_stream_for_room (seed_room "!R") always_changed "!R"
              (Some "s2") "s5" 100 DESC empty_world).2 _ _ _ Hkey).
  vm_compute. reflexivity.
Defined.

(** ** Pages of a sorted selection *)

#[global] Instance by_stream_refl : Reflexive by_stream.
Proof. unfold by_stream. intros a. lia. Qed.

Lemma filter_none {A : Type} (f : A -> bool) (l : list A) :
  (forall x, x ∈ l -> f x = false) -> List.filter f l = [].
Proof.
  induction l as [|a l IH]; intros Hall; simpl; [done|].
  rewrite (Hall a) by left. apply IH. intros x Hx. apply Hall. by right.
Qed.

Section Pages.

Variable R : relation EventRow.
Context `{!RelDecision R} `{!Transitive R, !Total R, !Reflexive R}.
Variable o : sort_order.
Variable n : Z.
Variable P : EventRow -> bool.
Variable db : list EventRow.

Let page : list EventRow := sql_limit n (order_by R o (List.filter P db)).

(** Every row of the page sorts at or before the last one. *)
Lemma page_before_last (r e : EventRow) :
  last page = Some r -> e ∈ page -> directed o R e r.
Proof using Type*.
  intros Hlast He. rewrite last_lookup in Hlast.
  apply list_elem_of_lookup_1 in He as [j Hj].
  destruct (decide (j = pred (length page))) as [->|Hne].
  - rewrite Hj in Hlast. by injection Hlast as ->.
  - eapply (strongly_sorted_lookup (directed o R) page j); [|done..|].
    + apply select_sorted; apply _.
    + apply lookup_lt_Some in Hj. lia.
Qed.

(** A selected row that the LIMIT cut off sorts at or after the last row of
    the page, at another place of the sorted selection. *)
Lemma page_cut_off (r x : EventRow) :
  last page = Some r -> x ∈ db -> P x = true -> x ∉ page ->
  directed o R r x
  /\ exists i j, i <> j /\ order_by R o (List.filter P db) !! i = Some r
                 /\ order_by R o (List.filter P db) !! j = Some x.
Proof using Type*.
  intros Hlast Hdb HP Hout. subst page.
  set (L := order_by R o (List.filter P db)) in *.
  assert (HL : x ∈ L).
  { unfold L. rewrite order_by_perm. by apply filter_elem_of. }
  unfold sql_limit in *. destruct (n <? 0); [done|].
  apply list_elem_of_lookup_1 in HL as [j Hj].
  assert (Hjn : (Z.to_nat n <= j)%nat).
  { destruct (decide (j < Z.to_nat n)%nat) as [Hlt|]; [|lia].
    exfalso. apply Hout, elem_of_take. eauto. }
  rewrite last_lookup in Hlast.
  apply lookup_take_Some in Hlast as [Hi Hlt].
  split.
  - eapply (strongly_sorted_lookup (directed o R) L _ j); [|done..|lia].
    apply StronglySorted_merge_sort; apply _.
  - eexists _, j. split; [|done]. lia.
Qed.

(** A page is empty only when nothing is selected, unless the limit is 0. *)
Lemma page_empty (x : EventRow) :
  n <> 0 -> page = [] -> x ∈ db -> P x = false.
Proof using Type*.
  intros Hn Hpage Hdb. destruct (P x) eqn:HP; [exfalso|done].
  assert (HL : x ∈ order_by R o (List.filter P db)).
  { rewrite order_by_perm. by apply filter_elem_of. }
  subst page. unfold sql_limit in Hpage. destruct (Z.ltb_spec n 0).
  - rewrite Hpage in HL. by apply elem_of_nil in HL.
  - destruct (order_by R o (List.filter P db)) as [|a l]; [by apply elem_of_nil in HL|].
    destruct (Z.to_nat n) eqn:Hz; [lia|done].
Qed.

End Pages.

(** ** More on paginate_room_events *)


Lemma paginate_rows_empty_room (db : list EventRow) (room : string)
  (bounds : sql_cond) (o : sort_order) (limit : Z) :
  (forall r, r ∈ db -> room_id r <> room) ->
  paginate_rows db room bounds o limit = [].
Proof.
  intros Hroom. rewrite paginate_rows_of_room.
  rewrite (filter_none (fun r => String.eqb (room_id r) room)).
  - change (order_by by_composite o (List.filter _ [])) with (@nil EventRow).
    unfold sql_limit. destruct (_ <? 0); [done | apply take_nil].
  - intros r Hr. apply String.eqb_neq. by apply Hroom.
Qed.

(** X4: paginating a room that has no event, with valid tokens, in either
    direction and with any limit, returns no events and echoes a token:
    [to_key] when it is given and not empty, [from_key] otherwise; no
    metadata is written. *)
Theorem paginate_empty_room (db : list EventRow) (room from_key : string)
  (to_key : option string) (direction : string) (limit : Z) (w : world)
  (ft : RoomStreamToken) :
  (forall r, r ∈ db -> room_id r <> room) ->
  parse from_key = inr ft ->
  (forall k, to_key = Some k -> k <> "" -> exists tt, parse k = inr tt) ->
  (paginate_room_events db room from_key to_key direction limit w).1
  = Return ([], match to_key with
                | Some (String _ _ as k) => k
                | _ => from_key
                end)
  /\ metadata (paginate_room_events db room from_key to_key direction limit w).2
     = metadata w.
Proof.
  intros Hroom Hf Hto. unfold paginate_room_events. run_monad. rewrite Hf. simpl.
  destruct to_key as [[|c k]|]; simpl.
  - by rewrite !paginate_rows_empty_room.
  - destruct (Hto (String c k) eq_refl) as [tt Ht]; [done|]. rewrite Ht. simpl.
    by rewrite !paginate_rows_empty_room.
  - by rewrite !paginate_rows_empty_room.
Qed.

Lemma paginate_empty_room_witness :
  (paginate_room_events (seed_room "!R") "!other" "t5-5" (Some "t1-1") "b" 10
     empty_world).1
  = Return ([], "t1-1").
Proof.
  apply (paginate_empty_room (seed_room "!R") "!other" "t5-5" (Some "t1-1") "b" 10
           empty_world (mkToken (Some 5) 5)).
  - intros r Hr. apply list_elem_of_In in Hr. vm_compute in Hr.
    repeat (destruct Hr as [<-|Hr]; [discriminate|]). destruct Hr.
  - reflexivity.
  - intros k [= <-] _. exists (mkToken (Some 1) 1). reflexivity.
Defined.






(** ** More on get_events_around *)

Lemma simple_select_one_found (db : list EventRow) (room event : string)
  (pin : EventRow) :
  _simple_select_one_txn db room event = inr pin ->
  pin ∈ db /\ event_id pin = event /\ room_id pin = room.
Proof.
  unfold _simple_select_one_txn.
  destruct (List.find _ db) as [r|] eqn:Hfind; [|done]. intros [= ->].
  apply find_some in Hfind as [Hin Hp]. apply andb_true_iff in Hp as [He Hr].
  split; [by apply list_elem_of_In|]. split; by apply String.eqb_eq.
Qed.

Lemma events_around_run (db : list EventRow) (room event : string)
  (before_limit after_limit : Z) (w : world) (pin : EventRow) :
  _simple_select_one_txn db room event = inr pin ->
  let before := query_before db room (topological_ordering pin)
                  (stream_ordering pin) before_limit in
  let after_ := query_after db room (topological_ordering pin)
                  (stream_ordering pin) after_limit in
  (get_events_around db room event before_limit after_limit w).1
  = Return
      (mkAround
         (_get_events_txn db (event_id <$> before))
         (_get_events_txn db (event_id <$> after_))
         (match before with
          | r :: _ => token_str (mkToken (Some (topological_ordering r))
                                   (stream_ordering r - 1))
          | [] => token_str (mkToken (Some (topological_ordering pin))
                               (stream_ordering pin - 1))
          end)
         (match last after_ with
          | Some r => token_str (mkToken (Some (topological_ordering r))
                                   (stream_ordering r))
          | None => token_str (mkToken (Some (topological_ordering pin))
                                 (stream_ordering pin))
          end)).
Proof.
  intros Hpin. unfold get_events_around, _get_events_around_txn. run_monad.
  rewrite Hpin. reflexivity.
Qed.

(** X7: the context window of a pinned event.  Every event of
    [events_before] is an event of the room strictly before the pinned event
    in the composite order, every event of [events_after] one strictly after
    it; so the pinned event is in neither list and the lists share no event;
    and with limits that are not negative the lists are no longer than
    [before_limit] and [after_limit]. *)
Theorem events_around_window (db : list EventRow) (room event : string)
  (before_limit after_limit : Z) (w w' : world) (res : EventsAround) :
  NoDup (event_id <$> db) ->
  get_events_around db room event before_limit after_limit w = (Return res, w') ->
  exists pin,
    pin ∈ db /\ event_id pin = event /\ room_id pin = room
    /\ (forall e, e ∈ events_before res ->
          e ∈ db /\ room_id e = room /\ lex_lt (position e) (position pin))
    /\ (forall e, e ∈ events_after res ->
          e ∈ db /\ room_id e = room /\ lex_lt (position pin) (position e))
    /\ (pin ∉ events_before res) /\ (pin ∉ events_after res)
    /\ (forall e, e ∈ events_before res -> e ∉ events_after res)
    /\ (0 <= before_limit -> Z.of_nat (length (events_before res)) <= before_limit)
    /\ (0 <= after_limit -> Z.of_nat (length (events_after res)) <= after_limit).
Proof.
  intros Hkey (pin & Hpin & Hb & Ha)%events_around_returns.
  rewrite get_events_of_submseteq in Hb, Ha by (done || apply select_submseteq).
  destruct (simple_select_one_found _ _ _ _ Hpin) as (Hin & Hid & Hroom).
  assert (Hbefore : forall e, e ∈ events_before res ->
            e ∈ db /\ room_id e = room /\ lex_lt (position e) (position pin)).
  { intros e He. rewrite Hb in He. apply select_elem_of in He as [Hdb Hp].
    apply andb_true_iff in Hp as [Hr Hp]. split; [done|].
    split; [by apply String.eqb_eq|]. unfold lex_lt, position. simpl.
    apply orb_true_iff in Hp as [Hp|[Hp Hq]%andb_true_iff]; lia. }
  assert (Hafter : forall e, e ∈ events_after res ->
            e ∈ db /\ room_id e = room /\ lex_lt (position pin) (position e)).
  { intros e He. rewrite Ha in He. apply select_elem_of in He as [Hdb Hp].
    apply andb_true_iff in Hp as [Hr Hp]. split; [done|].
    split; [by apply String.eqb_eq|]. unfold lex_lt, position. simpl.
    apply orb_true_iff in Hp as [Hp|[Hp Hq]%andb_true_iff]; lia. }
  exists pin. repeat split; try done.
  - by apply Hbefore.
  - by apply Hbefore.
  - by apply Hbefore.
  - by apply Hafter.
  - by apply Hafter.
  - by apply Hafter.
  - intros (_ & _ & Hlt)%Hbefore. unfold lex_lt in Hlt. lia.
  - intros (_ & _ & Hlt)%Hafter. unfold lex_lt in Hlt. lia.
  - intros e (_ & _ & Hlt)%Hbefore (_ & _ & Hgt)%Hafter.
    unfold lex_lt in Hlt, Hgt. lia.
  - intros Hl. rewrite Hb. by apply sql_limit_length.
  - intros Hl. rewrite Ha. by apply sql_limit_length.
Qed.

Lemma events_around_window_witness :
  exists pin,
    pin ∈ outlier_room /\ event_id pin = "e2" /\ room_id pin = "!R"
    /\ (forall e, e ∈ events_before
                        (mkAround [mkEvent "o1" "!R" "m.room.message" None true 1 1 1]
                           [mkEvent "o3" "!R" "m.room.message" None true 3 3 3]
                           "t1-0" "t3-3") ->
          e ∈ outlier_room /\ room_id e = "!R" /\ lex_lt (position e) (position pin)).
Proof.
  assert (Hkey : NoDup (event_id <$> outlier_room)).
  { apply (bool_decide_unpack _). vm_compute. exact I. }
  destruct (events_around_window outlier_room "!R" "e2" 1 1 empty_world
              (get_events_around outlier_room "!R" "e2" 1 1 empty_world).2
              (mkAround [mkEvent "o1" "!R" "m.room.message" None true 1 1 1]
                 [mkEvent "o3" "!R" "m.room.message" None true 3 3 3]
                 "t1-0" "t3-3") Hkey)
    as (pin & H1 & H2 & H3 & H4 & _).
  - vm_compute. reflexivity.
  - exists pin. auto.
Defined.

(** X8: the tokens of a context window.  Both read back as tokens.  The rows
    strictly after [end] are exactly the rows strictly after the last event
    of [events_after] (the pinned event when there is none), so paginating
    forwards from [end] repeats no event of the window.  The rows at or
    before [start] are exactly the rows strictly before the first event of
    [events_before], which is the one nearest to the pinned event (the
    pinned event itself when there is none); the other events of
    [events_before] therefore lie at or before [start]. *)
Theorem events_around_tokens (db : list EventRow) (room event : string)
  (before_limit after_limit : Z) (w w' : world) (res : EventsAround) :
  NoDup (event_id <$> db) ->
  NoDup (stream_ordering <$> db) ->
  get_events_around db room event before_limit after_limit w = (Return res, w') ->
  exists pin st en,
    _simple_select_one_txn db room event = inr pin
    /\ parse (start_token res) = inr st
    /\ parse (end_token res) = inr en
    /\ (forall x, at_or_before st x
                  <-> lex_lt (position x)
                        (position (default pin (head (events_before res)))))
    /\ (forall x, strictly_after en x
                  <-> lex_lt (position (default pin (last (events_after res))))
                        (position x))
    /\ (forall e, e ∈ events_after res -> ~ strictly_after en e)
    /\ (forall i e, events_before res !! S i = Some e -> at_or_before st e).
Proof.
  intros Hkey Hstream Hrun.
  destruct (events_around_returns _ _ _ _ _ _ _ _ Hrun) as (pin & Hpin & _ & _).
  pose proof (events_around_run db room event before_limit after_limit w pin Hpin)
    as Hval.
  rewrite Hrun in Hval. simpl in Hval. injection Hval as ->. simpl.
  rewrite !get_events_of_submseteq by (done || apply select_submseteq).
  set (before := query_before db room (topological_ordering pin)
                   (stream_ordering pin) before_limit).
  set (after_ := query_after db room (topological_ordering pin)
                   (stream_ordering pin) after_limit).
  exists pin,
    (mkToken (Some (topological_ordering (default pin (head before))))
       (stream_ordering (default pin (head before)) - 1)),
    (mkToken (Some (topological_ordering (default pin (last after_))))
       (stream_ordering (default pin (last after_)))).
  assert (Hst : forall x,
            at_or_before
              (mkToken (Some (topological_ordering (default pin (head before))))
                 (stream_ordering (default pin (head before)) - 1)) x
            <-> lex_lt (position x) (position (default pin (head before)))).
  { intros x. unfold at_or_before, lex_le, lex_lt, position. simpl. lia. }
  split; [done|]. split; [|split; [|split; [|split; [|split]]]].
  - destruct before; apply parse_token_str.
  - destruct (last after_); apply parse_token_str.
  - exact Hst.
  - intros x. reflexivity.
  - intros e He Hafter. destruct (last after_) as [r|] eqn:Hlast.
    + pose proof (page_before_last by_composite ASC after_limit _ db r e Hlast He)
        as Hre.
      unfold strictly_after, lex_lt, position in Hafter. simpl in Hafter.
      unfold directed, by_composite in Hre. lia.
    + apply last_None in Hlast. rewrite Hlast in He. by apply elem_of_nil in He.
  - intros i e He. apply Hst.
    destruct before as [|r0 rest] eqn:Hb; [done|]. simpl.
    assert (Hsorted : StronglySorted (flip by_composite) (r0 :: rest)).
    { rewrite <- Hb. apply (select_sorted by_composite DESC). }
    pose proof (strongly_sorted_lookup _ _ 0 (S i) r0 e Hsorted eq_refl He
                  ltac:(lia)) as Hle.
    assert (Hne : stream_ordering r0 <> stream_ordering e).
    { eapply (distinct_positions stream_ordering (r0 :: rest) 0 (S i));
        [|done..|lia].
      rewrite <- Hb. eapply fmap_nodup_submseteq; [apply select_submseteq|done]. }
    unfold lex_lt, position. simpl. unfold flip, by_composite in Hle. lia.
Qed.

Lemma events_around_tokens_witness :
  exists st en,
    parse "t1-0" = inr st /\ parse "t3-3" = inr en
    /\ (forall x, strictly_after en x
                  <-> lex_lt (3, 3) (position x)).
Proof.
  destruct (events_around_tokens outlier_room "!R" "e2" 1 1 empty_world
              (get_events_around outlier_room "!R" "e2" 1 1 empty_world).2
              (mkAround [mkEvent "o1" "!R" "m.room.message" None true 1 1 1]
                 [mkEvent "o3" "!R" "m.room.message" None true 3 3 3]
                 "t1-0" "t3-3"))
    as (pin & st & en & _ & Hs & He & _ & Hafter & _).
  - apply (bool_decide_unpack _). vm_compute. exact I.
  - apply (bool_decide_unpack _). vm_compute. exact I.
  - vm_compute. reflexivity.
  - exists st, en. auto.
Defined.

(** ** More on get_recent_events_for_room *)

Lemma recent_events_run (db : list EventRow) (room : string) (limit : Z)
  (end_key : string) (from_key : option string) (w : world)
  (et : RoomStreamToken) (from_id : option Z) :
  parse_stream_token end_key = inr et ->
  match from_key with
  | None => from_id = None
  | Some k => exists ft, parse_stream_token k = inr ft /\ from_id = Some (stream ft)
  end ->
  let rows := reverse (recent_rows db room from_id (stream et) limit) in
  (get_recent_events_for_room db room limit end_key from_key w).1
  = Return (_get_events_txn db (event_id <$> rows),
            (match rows with
             | r :: _ => token_str (mkToken (Some (topological_ordering r))
                                      (stream_ordering r - 1))
             | [] => token_str et
             end, token_str et)).
Proof.
  intros He Hfrom. unfold get_recent_events_for_room, get_recent_event_ids_for_room.
  run_monad. rewrite He. simpl.
  destruct from_key as [k|].
  - destruct Hfrom as (ft & -> & ->). simpl.
    by destruct (reverse _).
  - subst from_id. simpl. by destruct (reverse _).
Qed.

(** X9: [get_recent_events_for_room] returns the latest events of the room up
    to the end token.  Every returned event is an event of the room, not an
    outlier, with a stream_ordering at most that of the end token and above
    that of the from token when one is given; with a limit that is not
    negative there are at most [limit] of them; an event that qualifies and
    is left out is not later, in the composite order, than any returned
    event.  The second token is the end token; the first one reads back as a
    token, and the rows at or before it are exactly the rows strictly before
    the first returned event (it is the end token when nothing is
    returned). *)
Theorem recent_events_window (db : list EventRow) (room : string) (limit : Z)
  (end_key : string) (from_key : option string) (w w' : world)
  (evs : list EventRow) (start end_ : string) (et : RoomStreamToken)
  (from_id : option Z) :
  NoDup (event_id <$> db) ->
  parse_stream_token end_key = inr et ->
  match from_key with
  | None => from_id = None
  | Some k => exists ft, parse_stream_token k = inr ft /\ from_id = Some (stream ft)
  end ->
  get_recent_events_for_room db room limit end_key from_key w
  = (Return (evs, (start, end_)), w') ->
  let qualifies x :=
    x ∈ db /\ room_id x = room /\ outlier x = false
    /\ stream_ordering x <= stream et
    /\ match from_id with Some f => f < stream_ordering x | None => True end in
  end_ = token_str et
  /\ (forall e, e ∈ evs -> qualifies e)
  /\ (0 <= limit -> Z.of_nat (length evs) <= limit)
  /\ (forall x e, qualifies x -> x ∉ evs -> e ∈ evs -> by_composite x e)
  /\ match evs with
     | [] => start = token_str et
     | e0 :: _ =>
         exists tok, parse start = inr tok
                     /\ forall x, at_or_before tok x
                                  <-> lex_lt (position x) (position e0)
     end.
Proof.
  intros Hkey He Hfrom Hrun qualifies.
  pose proof (recent_events_run db room limit end_key from_key w et from_id
                He Hfrom) as Hval.
  rewrite Hrun in Hval. simpl in Hval.
  rewrite get_events_of_submseteq in Hval
    by (done || rewrite reverse_Permutation; apply select_submseteq).
  injection Hval as -> -> ->.
  set (P := fun r => String.eqb (room_id r) room
                     && match from_id with
                        | Some f => stream_ordering r >? f
                        | None => true
                        end
                     && (stream_ordering r <=? stream et)
                     && Bool.eqb (outlier r) false).
  assert (HP : forall x, x ∈ db -> P x = true <-> qualifies x).
  { intros x Hx. unfold P, qualifies.
    rewrite !andb_true_iff, String.eqb_eq, Z.leb_le.
    destruct (outlier x), from_id; simpl; rewrite ?Z.gtb_ltb, ?Z.ltb_lt;
      intuition (try done; try lia). }
  change (recent_rows db room from_id (stream et) limit)
    with (sql_limit limit (order_by by_composite DESC (List.filter P db))).
  set (rows := sql_limit limit (order_by by_composite DESC (List.filter P db))).
  split; [done|]. split; [|split; [|split]].
  - intros e [Hdb Hp]%elem_of_reverse%select_elem_of. by apply HP.
  - intros Hl. rewrite length_reverse. by apply sql_limit_length.
  - intros x e Hx Hout Hin. rewrite elem_of_reverse in Hin, Hout.
    destruct (last rows) as [r|] eqn:Hlast.
    + assert (Hdb : x ∈ db) by apply Hx.
      destruct (page_cut_off by_composite DESC limit P db r x Hlast Hdb)
        as [Hrx _]; [by apply (HP x Hdb) | done |].
      pose proof (page_before_last by_composite DESC limit P db r e Hlast Hin) as Hre.
      unfold directed, flip in Hrx, Hre. by trans r.
    + apply last_None in Hlast. rewrite Hlast in Hin. by apply elem_of_nil in Hin.
  - destruct (reverse rows) as [|e0 rest] eqn:Hrev; [done|].
    eexists. split; [apply parse_token_str|].
    intros x. unfold at_or_before, lex_le, lex_lt, position. simpl. lia.
Qed.

Lemma recent_events_window_witness :
  "s5" = token_str (mkToken None 5)
  /\ (forall e, e ∈ seed_event "!R" <$> [4; 5] ->
        e ∈ seed_room "!R" /\ room_id e = "!R" /\ outlier e = false
        /\ stream_ordering e <= 5 /\ True).
Proof.
  destruct (recent_events_window (seed_room "!R") "!R" 2 "s5" None empty_world
              (get_recent_events_for_room (seed_room "!R") "!R" 2 "s5" None
                 empty_world).2
              (seed_event "!R" <$> [4; 5]) "t4-3" "s5" (mkToken None 5) None)
    as (Hend & Hq & _).
  - apply (bool_decide_unpack _). vm_compute. exact I.
  - reflexivity.
  - reflexivity.
  - vm_compute. reflexivity.
  - split; [exact Hend | exact Hq].
Defined.

(** ** More on get_appservice_room_stream *)

(** X10: when [from_key] and [to_key] are the same valid token,
    [get_appservice_room_stream] returns no events and [to_key] and performs
    no effect at all. *)
Theorem appservice_equal_tokens (db : list EventRow) (service : ApplicationService)
  (key : string) (limit : Z) (w : world) (tok : RoomStreamToken) :
  parse_stream_token key = inr tok ->
  get_appservice_room_stream db service key key limit w = (Return ([], key), w).
Proof.
  intros Hp. unfold get_appservice_room_stream. run_monad. rewrite Hp. simpl.
  by rewrite String.eqb_refl.
Qed.

Lemma appservice_equal_tokens_witness :
  get_appservice_room_stream (bridged_room "!R") bridge_service "s3" "s3" 0
    empty_world
  = (Return ([], "s3"), empty_world).
Proof.
  apply (appservice_equal_tokens _ _ "s3" 0 empty_world (mkToken None 3)).
  reflexivity.
Defined.

(** X11: what the application service stream returns between two different
    valid tokens.  Every returned event interests the service and has its
    stream_ordering in the interval from [from_key], excluded, to [to_key],
    included.  The limit is never below 1000: a limit of at most 1000 gives
    the same run as no limit, and at most max(limit, 1000) events are
    returned.  The limit counts rows before the interest filter: an
    interesting row of the interval is returned when the rows of the
    interval with a stream_ordering up to its own, interesting or not, are
    no more than the limit in force. *)
Theorem appservice_window (db : list EventRow) (service : ApplicationService)
  (from_key to_key : string) (limit : Z) (w : world) (ft tt : RoomStreamToken) :
  NoDup (event_id <$> db) ->
  parse_stream_token from_key = inr ft ->
  parse_stream_token to_key = inr tt ->
  from_key <> to_key ->
  let in_range x :=
    (stream_ordering x >? stream ft) && (stream_ordering x <=? stream tt) in
  exists evs key,
    (get_appservice_room_stream db service from_key to_key limit w).1
    = Return (evs, key)
    /\ (forall e, e ∈ evs ->
          e ∈ db /\ app_service_interested service e = true
          /\ stream ft < stream_ordering e <= stream tt)
    /\ Z.of_nat (length evs) <= Z.max limit MAX_STREAM_SIZE
    /\ (limit <= MAX_STREAM_SIZE ->
        get_appservice_room_stream db service from_key to_key limit w
        = get_appservice_room_stream db service from_key to_key 0 w)
    /\ (forall x, x ∈ db -> app_service_interested service x = true ->
          in_range x = true ->
          Z.of_nat (length (List.filter
                              (fun r => in_range r && bool_decide (by_stream r x)) db))
          <= Z.max limit MAX_STREAM_SIZE ->
          x ∈ evs).
Proof.
  intros Hkey Hf Ht Hne in_range.
  assert (Hsame : limit <= MAX_STREAM_SIZE ->
            get_appservice_room_stream db service from_key to_key limit w
            = get_appservice_room_stream db service from_key to_key 0 w).
  { intros Hl.
    rewrite (appservice_run db service _ _ limit w ft tt Hf Ht Hne),
      (appservice_run db service _ _ 0 w ft tt Hf Ht Hne).
    replace (if limit =? 0 then MAX_STREAM_SIZE else Z.max limit MAX_STREAM_SIZE)
      with MAX_STREAM_SIZE; [reflexivity|].
    unfold MAX_STREAM_SIZE in *. destruct (Z.eqb_spec limit 0); lia. }
  set (n := if limit =? 0 then MAX_STREAM_SIZE else Z.max limit MAX_STREAM_SIZE).
  assert (Hn : n = Z.max limit MAX_STREAM_SIZE).
  { unfold n, MAX_STREAM_SIZE. destruct (Z.eqb_spec limit 0); lia. }
  set (rows := appservice_rows db (stream ft) (stream tt) n).
  assert (Hsub : List.filter (app_service_interested service) rows ⊆+ db).
  { etrans; [apply sublist_submseteq, filter_sublist | apply select_submseteq]. }
  exists (List.filter (app_service_interested service) rows). eexists.
  split.
  { rewrite (appservice_run db service _ _ limit w ft tt Hf Ht Hne). simpl.
    fold n. fold rows. rewrite (get_events_of_submseteq db Hkey _ Hsub).
    reflexivity. }
  split; [|split; [|split]].
  - intros e [[Hdb Hp]%select_elem_of Hi]%filter_elem_of.
    apply andb_true_iff in Hp as [Hp1 Hp2]. split; [done|]. split; [done|]. lia.
  - rewrite <- Hn.
    assert (Hrows : Z.of_nat (length rows) <= n).
    { apply sql_limit_length. unfold MAX_STREAM_SIZE in *. lia. }
    pose proof (sublist_length _ _
                  (filter_sublist (app_service_interested service) rows)). lia.
  - exact Hsame.
  - intros x Hdb Hi Hr Hrank. apply filter_elem_of. split; [|done].
    apply (limit_keeps by_stream ASC n in_range); [done..|].
    right. by rewrite Hn.
Qed.

Lemma appservice_window_witness :
  exists evs key,
    (get_appservice_room_stream (bridged_room "!R") bridge_service "s0" "s3" 5
       empty_world).1 = Return (evs, key)
    /\ Z.of_nat (length evs) <= Z.max 5 MAX_STREAM_SIZE
    /\ get_appservice_room_stream (bridged_room "!R") bridge_service "s0" "s3" 5
         empty_world
       = get_appservice_room_stream (bridged_room "!R") bridge_service "s0" "s3" 0
           empty_world.
Proof.
  destruct (appservice_window (bridged_room "!R") bridge_service "s0" "s3" 5
              empty_world (mkToken None 0) (mkToken None 3))
    as (evs & key & Hrun & _ & Hlen & Hsame & _).
  - apply (bool_decide_unpack _). vm_compute. exact I.
  - reflexivity.
  - reflexivity.
  - discriminate.
  - exists evs, key. split; [exact Hrun|]. split; [exact Hlen|].
    apply Hsame. vm_compute. discriminate.
Defined.

(** ** get_room_events_stream_for_rooms *)

Lemma slices_concat {A : Type} (l : list A) :
  concat ((fun i => take 20 (drop i l)) <$> xrange0 (length l) 20) = l.
Proof.
  assert (Haux : forall m,
            concat ((fun i => take 20 (drop i l))
                      <$> ((fun k => (k * 20)%nat) <$> seq 0 m))
            = take (m * 20) l).
  { induction m as [|m IH]; [done|].
    rewrite seq_S, !fmap_app, concat_app, IH. simpl.
    rewrite app_nil_r, take_take_drop. f_equal. lia. }
  unfold xrange0. rewrite Haux. apply take_ge.
  pose proof (Nat.div_mod (length l + 20 - 1) 20 ltac:(lia)) as Hdm.
  pose proof (Nat.mod_upper_bound (length l + 20 - 1) 20 ltac:(lia)) as Hub.
  change (Nat.div (length l + 20 - 1) 20) with ((length l + 20 - 1) `div` 20)%nat in Hdm.
  lia.
Qed.

(** The value a single-room read returns does not depend on the world. *)
Lemma stream_for_room_value (db : list EventRow) (cache : string -> Z -> bool)
  (room : string) (from_key : option string) (to_key : string) (limit : Z)
  (order : sort_order) (w w0 : world) :
  (get_room_events_stream_for_room db cache room from_key to_key limit order w).1
  = (get_room_events_stream_for_room db cache room from_key to_key limit order w0).1.
Proof.
  unfold get_room_events_stream_for_room. run_monad.
  destruct from_key as [k|]; simpl.
  - destruct (parse_stream_token k); simpl; [done|].
    destruct (parse_stream_token to_key); simpl; [done|].
    case_bool_decide; [done|]. destruct (_ =? 0); simpl; [done|].
    by destruct (cache room _).
  - by destruct (parse_stream_token to_key).
Qed.

Lemma stream_for_room_total (db : list EventRow) (cache : string -> Z -> bool)
  (room k to_key : string) (limit : Z) (order : sort_order) (w : world)
  (ft tt : RoomStreamToken) :
  parse_stream_token k = inr ft -> parse_stream_token to_key = inr tt ->
  exists v,
    (get_room_events_stream_for_room db cache room (Some k) to_key limit order w).1
    = Return v.
Proof.
  intros Hf Ht. unfold get_room_events_stream_for_room. run_monad.
  rewrite Hf, Ht. simpl. case_bool_decide; [eauto|].
  destruct (_ =? 0); simpl; [eauto|]. destruct (cache room _); simpl; eauto.
Qed.

Section FanOut.

Variable db : list EventRow.
Variable cache : string -> Z -> bool.
Variables from_key to_key : string.
Variable limit : Z.
Variable order : sort_order.
Variables ft tt : RoomStreamToken.
Hypothesis parse_from : parse_stream_token from_key = inr ft.
Hypothesis parse_to : parse_stream_token to_key = inr tt.

Let read (room : string) : M (list EventRow * option string) :=
  get_room_events_stream_for_room db cache room (Some from_key) to_key limit order.

Let val (room : string) : list EventRow * option string :=
  match (read room empty_world).1 with
  | Return v => v
  | Raise _ => ([], None)
  end.

Lemma read_val (room : string) (w : world) : (read room w).1 = Return (val room).
Proof using parse_from parse_to.
  unfold val, read.
  rewrite (stream_for_room_value db cache room _ _ _ _ empty_world w).
  destruct (stream_for_room_total db cache room from_key to_key limit order w ft tt
              parse_from parse_to) as [v Hv].
  by rewrite Hv.
Qed.

Lemma gather_reads (rm_ids : list string) (i : nat) (w : world) :
  (gatherResults i (read <$> rm_ids) w).1 = Return (inr (val <$> rm_ids)).
Proof using parse_from parse_to.
  revert i w. induction rm_ids as [|r rest IH]; intros i w; [done|].
  rewrite !fmap_cons. simpl.
  pose proof (read_val r w) as Hr. destruct (read r w) as [[v|e] w1]; [|done].
  simpl in Hr. injection Hr as ->.
  specialize (IH (S i) w1).
  destruct (gatherResults (S i) (read <$> rest) w1) as [[[e|l]|e] w2];
    simpl in IH; try done.
  by injection IH as ->.
Qed.

Lemma fold_insert_zip (ks : list string)
  (m : gmap string (list EventRow * option string)) (k : string) :
  fold_left (fun m kv => <[kv.1 := kv.2]> m) (zip ks (val <$> ks)) m !! k
  = if decide (k ∈ ks) then Some (val k) else m !! k.
Proof.
  revert m. induction ks as [|a ks IH]; intros m.
  - by rewrite decide_False by apply not_elem_of_nil.
  - rewrite fmap_cons. simpl. rewrite IH.
    destruct (decide (k ∈ ks)) as [Hin|Hout].
    + rewrite decide_True by (by right). done.
    + destruct (decide (k = a)) as [->|Hne].
      * rewrite decide_True by left. apply lookup_insert_eq.
      * rewrite decide_False by (intros [?|?]%elem_of_cons; done).
        by apply lookup_insert_ne.
Qed.

Lemma stream_batches_value (slices : list (list string))
  (results : gmap string (list EventRow * option string)) (w : world) :
  exists m,
    (stream_batches db cache from_key to_key limit order slices results w).1
    = Return (inr m)
    /\ forall k, m !! k = if decide (k ∈ concat slices) then Some (val k)
                          else results !! k.
Proof using parse_from parse_to.
  revert results w. induction slices as [|rm_ids rest IH]; intros results w.
  - exists results. split; [done|]. intros k.
    by rewrite decide_False by apply not_elem_of_nil.
  - simpl. unfold bind at 1. unfold stream_batch, bind at 1.
    pose proof (gather_reads rm_ids 0 w) as Hg. fold read.
    destruct (gatherResults 0 (read <$> rm_ids) w) as [[[e|vs]|e] w1];
      simpl in Hg; try done.
    injection Hg as ->. simpl.
    destruct (IH (fold_left (fun m kv => <[kv.1 := kv.2]> m)
                    (zip rm_ids (val <$> rm_ids)) results) w1) as (m & Hm & Hlook).
    exists m. split; [done|]. intros k. rewrite Hlook, fold_insert_zip.
    destruct (decide (k ∈ concat rest)) as [Hin|Hout].
    + rewrite decide_True by (apply elem_of_app; by right). done.
    + destruct (decide (k ∈ rm_ids)) as [Hin'|Hout'].
      * rewrite decide_True by (apply elem_of_app; by left). done.
      * rewrite decide_False by (intros [?|?]%elem_of_app; done). done.
Qed.

Lemma fan_out_value (room_ids : list string) (w : world) :
  exists m,
    (get_room_events_stream_for_rooms db cache room_ids from_key to_key limit order
       w).1 = Return (inr m)
    /\ forall k, m !! k
                 = if decide (k ∈ room_ids /\ cache k (stream ft) = true)
                   then Some (val k) else None.
Proof using parse_from parse_to.
  unfold get_room_events_stream_for_rooms, get_entities_changed. run_monad.
  rewrite parse_from. simpl.
  set (changed := remove_dups (List.filter (fun r => cache r (stream ft)) room_ids)).
  assert (Hchanged : forall k, k ∈ changed
                               <-> k ∈ room_ids /\ cache k (stream ft) = true).
  { intros k. unfold changed. rewrite elem_of_remove_dups.
    apply (filter_elem_of (fun r => cache r (stream ft))). }
  destruct changed as [|c rest] eqn:Hc.
  - exists ∅. split; [done|]. intros k. rewrite lookup_empty.
    rewrite decide_False; [done|]. intros Hk%Hchanged. by apply elem_of_nil in Hk.
  - rewrite <- Hc in *.
    edestruct (stream_batches_value
                 ((fun i => take 20 (drop i changed)) <$> xrange0 (length changed) 20)
                 ∅) as (m & Hm & Hlook).
    exists m. split; [exact Hm|]. intros k. rewrite Hlook, slices_concat.
    rewrite lookup_empty.
    destruct (decide (k ∈ changed)) as [Hin|Hout].
    + rewrite decide_True by (by apply Hchanged). done.
    + rewrite decide_False by (by rewrite <- Hchanged). done.
Qed.

End FanOut.

(** X12: when the change cache reports no change since [from_key] for any of
    the rooms, the read over many rooms returns the empty dictionary after
    asking the cache: there is no database interaction and no fetch, no
    metadata is written, and [to_key] is not even parsed. *)
Theorem fan_out_pruned (db : list EventRow) (cache : string -> Z -> bool)
  (room_ids : list string) (from_key to_key : string) (limit : Z)
  (order : sort_order) (w : world) (ft : RoomStreamToken) :
  parse_stream_token from_key = inr ft ->
  (forall r, r ∈ room_ids -> cache r (stream ft) = false) ->
  get_room_events_stream_for_rooms db cache room_ids from_key to_key limit order w
  = (Return (inr ∅),
     mkWorld (metadata w)
       (effects w ++ ((fun r => CacheHasEntityChanged r (stream ft)) <$> room_ids))).
Proof.
  intros Hf Hnone.
  unfold get_room_events_stream_for_rooms, get_entities_changed. run_monad.
  rewrite Hf. simpl.
  rewrite (filter_none (fun r => cache r (stream ft))) by exact Hnone.
  reflexivity.
Qed.

Lemma fan_out_pruned_witness :
  get_room_events_stream_for_rooms (seed_room "!R") (fun _ _ => false)
    ["!A"; "!R"] "s2" "not a token" 10 DESC empty_world
  = (Return (inr ∅),
     mkWorld ∅ [CacheHasEntityChanged "!A" 2; CacheHasEntityChanged "!R" 2]).
Proof.
  apply (fan_out_pruned (seed_room "!R") (fun _ _ => false) ["!A"; "!R"] "s2"
           "not a token" 10 DESC empty_world (mkToken None 2)).
  - reflexivity.
  - reflexivity.
Defined.

(** X13: with two valid tokens, the read over many rooms returns a dictionary
    with one entry for each of the given rooms that the change cache reports
    as changed since [from_key], and none for the others; the entry of a
    room holds what [get_room_events_stream_for_room] returns for that room
    with the same arguments.  The slices of twenty rooms do not show in the
    result. *)
Theorem fan_out_results (db : list EventRow) (cache : string -> Z -> bool)
  (room_ids : list string) (from_key to_key : string) (limit : Z)
  (order : sort_order) (w : world) (ft tt : RoomStreamToken) :
  parse_stream_token from_key = inr ft ->
  parse_stream_token to_key = inr tt ->
  exists m,
    (get_room_events_stream_for_rooms db cache room_ids from_key to_key limit order
       w).1 = Return (inr m)
    /\ forall room v,
         m !! room = Some v
         <-> room ∈ room_ids /\ cache room (stream ft) = true
             /\ (get_room_events_stream_for_room db cache room (Some from_key)
                   to_key limit order w).1 = Return v.
Proof.
  intros Hf Ht.
  destruct (fan_out_value db cache from_key to_key limit order ft tt Hf Ht room_ids w)
    as (m & Hm & Hlook).
  exists m. split; [exact Hm|]. intros room v. rewrite Hlook.
  rewrite (read_val db cache from_key to_key limit order ft tt Hf Ht room w).
  case_decide as Hc.
  - split.
    + intros [= <-]. by destruct Hc.
    + intros (_ & _ & [= <-]). done.
  - split; [done|]. intros (H1 & H2 & _). by destruct Hc.
Qed.

Lemma fan_out_results_witness :
  exists m,
    (get_room_events_stream_for_rooms (seed_room "!R") always_changed
       ["!A"; "!R"] "s2" "s5" 100 ASC empty_world).1 = Return (inr m)
    /\ m !! "!R" = Some (seed_event "!R" <$> [3; 4; 5], Some "s3")
    /\ m !! "!A" = Some ([], Some "s2").
Proof.
  destruct (fan_out_results (seed_room "!R") always_changed ["!A"; "!R"]
              "s2" "s5" 100 ASC empty_world (mkToken None 2) (mkToken None 5)
              eq_refl eq_refl) as (m & Hm & Hlook).
  exists m. split; [exact Hm|]. split.
  - apply Hlook. split; [right; left|]. split; [reflexivity|].
    vm_compute. reflexivity.
  - apply Hlook. split; [left|]. split; [reflexivity|].
    vm_compute. reflexivity.
Defined.

Lemma xrange0_head (n : nat) :
  exists rest, xrange0 (S n) 20 = 0%nat :: rest.
Proof.
  unfold xrange0.
  destruct ((S n + 20 - 1) `div` 20)%nat as [|k] eqn:Hk.
  - apply Nat.div_small_iff in Hk; lia.
  - simpl. eauto.
Qed.

(** X14: when [to_key] is not a valid token and the change cache reports at
    least one of the rooms as changed, the read over many rooms fails with
    a [FirstError] of index 0 around the invalid-token error of the first
    single-room read; only the cache has been asked. *)
Theorem fan_out_invalid_to_key (db : list EventRow) (cache : string -> Z -> bool)
  (room_ids : list string) (from_key to_key : string) (limit : Z)
  (order : sort_order) (w : world) (ft : RoomStreamToken) (e : exn) (room : string) :
  parse_stream_token from_key = inr ft ->
  parse_stream_token to_key = inl e ->
  room ∈ room_ids -> cache room (stream ft) = true ->
  get_room_events_stream_for_rooms db cache room_ids from_key to_key limit order w
  = (Return (inl (FirstError 0 e)),
     mkWorld (metadata w)
       (effects w ++ ((fun r => CacheHasEntityChanged r (stream ft)) <$> room_ids))).
Proof.
  intros Hf Ht Hin Hchanged.
  unfold get_room_events_stream_for_rooms, get_entities_changed. run_monad.
  rewrite Hf. simpl.
  destruct (remove_dups (List.filter (fun r => cache r (stream ft)) room_ids))
    as [|c rest] eqn:Hc.
  - assert (Hroom : room ∈ remove_dups
                      (List.filter (fun r => cache r (stream ft)) room_ids)).
    { apply elem_of_remove_dups.
      by apply (filter_elem_of (fun r => cache r (stream ft))). }
    rewrite Hc in Hroom. by apply elem_of_nil in Hroom.
  - change (length (c :: rest)) with (S (length rest)).
    destruct (xrange0_head (length rest)) as [slices ->].
    rewrite fmap_cons. simpl.
    unfold bind, stream_batch, bind. simpl.
    unfold get_room_events_stream_for_room at 1. run_monad.
    rewrite Hf, Ht. reflexivity.
Qed.

Lemma fan_out_invalid_to_key_witness :
  get_room_events_stream_for_rooms (seed_room "!R") always_changed
    ["!A"; "!R"] "s2" "five" 10 DESC empty_world
  = (Return (inl (FirstError 0 (SynapseError 400 "Invalid token five"))),
     mkWorld ∅ [CacheHasEntityChanged "!A" 2; CacheHasEntityChanged "!R" 2]).
Proof.
  apply (fan_out_invalid_to_key (seed_room "!R") always_changed ["!A"; "!R"]
           "s2" "five" 10 DESC empty_world (mkToken None 2)
           (SynapseError 400 "Invalid token five") "!R").
  - reflexivity.
  - reflexivity.
  - right. left.
  - reflexivity.
Defined.

(** ** Events annotated from their own rows *)

Lemma set_before_and_after_self (l : list EventRow) (topo_order : bool)
  (h : gmap string InternalMetadata) (e : EventRow) :
  (forall a b, a ∈ l -> b ∈ l -> event_id a = event_id b -> a = b) ->
  e ∈ l ->
  _set_before_and_after l l topo_order h !! event_id e
  = Some (annotation topo_order e e).
Proof.
  revert h. induction l as [|a l IH]; intros h Hinj He.
  { by apply elem_of_nil in He. }
  change (_set_before_and_after (a :: l) (a :: l) topo_order h)
    with (_set_before_and_after l l topo_order
            (<[event_id a := annotation topo_order a a]> h)).
  assert (Hinj' : forall x y, x ∈ l -> y ∈ l -> event_id x = event_id y -> x = y).
  { intros x y Hx Hy. apply Hinj; by right. }
  destruct (decide (event_id e ∈ event_id <$> l)) as [Hin|Hout].
  - apply list_elem_of_fmap in Hin as (b & Hid & Hb).
    assert (e = b) as -> by (apply Hinj; [done | by right | done]).
    by apply IH.
  - rewrite set_before_and_after_other by done.
    apply elem_of_cons in He as [->|He]; [apply lookup_insert_eq|].
    exfalso. apply Hout. by apply list_elem_of_fmap_2.
Qed.

Lemma rows_of_table_injective (db l : list EventRow) :
  NoDup (event_id <$> db) -> (forall r, r ∈ l -> r ∈ db) ->
  forall a b, a ∈ l -> b ∈ l -> event_id a = event_id b -> a = b.
Proof.
  intros Hkey Hsub a b Ha Hb Hid.
  pose proof (fetch_event_unique db Hkey a (Hsub a Ha)) as Hfa.
  pose proof (fetch_event_unique db Hkey b (Hsub b Hb)) as Hfb.
  rewrite Hid in Hfa. congruence.
Qed.

(** ** get_membership_changes_for_user *)

Lemma membership_join_elem (db : list EventRow) (ms : list (string * string))
  (user : string) (e : EventRow) :
  e ∈ membership_join db ms user <-> e ∈ db /\ (event_id e, user) ∈ ms.
Proof.
  unfold membership_join. rewrite !list_elem_of_In, in_flat_map. split.
  - intros (x & Hx & Hin). apply in_flat_map in Hin as (m & Hm & Hin).
    destruct (String.eqb (event_id x) m.1 && String.eqb m.2 user) eqn:Hb;
      simpl in Hin; [|done].
    apply andb_true_iff in Hb as [Hid Hu].
    apply String.eqb_eq in Hid. apply String.eqb_eq in Hu.
    destruct Hin as [->|[]].
    split; [done|]. destruct m as [i u]. simpl in *. by subst.
  - intros [He Hm]. exists e. split; [done|].
    apply in_flat_map. exists (event_id e, user).
    split; [done|]. simpl. rewrite !String.eqb_refl. by left.
Qed.

Lemma membership_changes_inv (db : list EventRow) (mcache : string -> Z -> bool)
  (ms : list (string * string)) (user : string) (from_key : option string)
  (to_key : string) (w w' : world) (evs : list EventRow) (tt : RoomStreamToken)
  (from_id : option Z) :
  parse_stream_token to_key = inr tt ->
  match from_key with
  | None => from_id = None
  | Some k => exists ft, parse_stream_token k = inr ft /\ from_id = Some (stream ft)
  end ->
  get_membership_changes_for_user db mcache ms user from_key to_key w
  = (Return evs, w') ->
  (evs = [] /\ metadata w' = metadata w
   /\ (from_key = Some to_key
       \/ exists f, from_id = Some f /\ f <> 0 /\ mcache user f = false))
  \/ (let rows := membership_rows db ms user from_id (stream tt) in
      evs = _get_events_txn db (event_id <$> rows)
      /\ metadata w' = _set_before_and_after evs rows false (metadata w)).
Proof.
  intros Ht Hfrom. unfold get_membership_changes_for_user. run_monad.
  destruct from_key as [k|].
  - destruct Hfrom as (ft & Hf & ->). rewrite Hf, Ht. simpl.
    case_bool_decide as Heq.
    { intros [= <- <-]. left. auto. }
    destruct (Z.eqb_spec (stream ft) 0) as [Hz|Hz]; simpl.
    + intros [= <- <-]. by right.
    + destruct (mcache user (stream ft)) eqn:Hc; simpl; intros [= <- <-].
      * by right.
      * left. split; [done|]. split; [done|]. right. eauto.
  - subst from_id. rewrite Ht. simpl. intros [= <- <-]. by right.
Qed.

(** X15: the membership changes of a user.  The returned events are sorted
    ascending in stream_ordering; each is an event of the table with a
    membership row of the user and a stream_ordering at most that of
    [to_key] and above that of [from_key] when one is given, whether or not
    it is an outlier; and unless the tokens are equal or the membership
    cache reports no change, every such event is returned: there is no
    limit. *)
Theorem membership_changes_window (db : list EventRow)
  (mcache : string -> Z -> bool) (ms : list (string * string)) (user : string)
  (from_key : option string) (to_key : string) (w w' : world)
  (evs : list EventRow) (tt : RoomStreamToken) (from_id : option Z) :
  NoDup (event_id <$> db) ->
  parse_stream_token to_key = inr tt ->
  match from_key with
  | None => from_id = None
  | Some k => exists ft, parse_stream_token k = inr ft /\ from_id = Some (stream ft)
  end ->
  get_membership_changes_for_user db mcache ms user from_key to_key w
  = (Return evs, w') ->
  let qualifies e :=
    e ∈ db /\ (event_id e, user) ∈ ms /\ stream_ordering e <= stream tt
    /\ match from_id with Some f => f < stream_ordering e | None => True end in
  StronglySorted by_stream evs
  /\ (forall e, e ∈ evs -> qualifies e)
  /\ (from_key <> Some to_key ->
      (forall f, from_id = Some f -> f <> 0 -> mcache user f = true) ->
      forall e, qualifies e -> e ∈ evs).
Proof.
  intros Hkey Ht Hfrom Hrun qualifies.
  assert (Hrows : forall e,
            e ∈ membership_rows db ms user from_id (stream tt) <-> qualifies e).
  { intros e. unfold membership_rows, qualifies.
    rewrite order_by_perm, filter_elem_of, membership_join_elem, andb_true_iff,
      Z.leb_le.
    destruct from_id; rewrite ?Z.gtb_ltb, ?Z.ltb_lt; intuition. }
  destruct (membership_changes_inv _ _ _ _ _ _ _ _ _ _ _ Ht Hfrom Hrun)
    as [(-> & _ & Hwhy)|[Hevs _]].
  - split; [constructor|]. split.
    + intros e He. by apply elem_of_nil in He.
    + intros Hne Hcache. exfalso. destruct Hwhy as [?|(f & Hf & Hz & Hc)]; [done|].
      rewrite (Hcache f Hf Hz) in Hc. done.
  - rewrite get_events_of_rows in Hevs by (done || intros r Hr; by apply Hrows in Hr as [? _]).
    subst evs. split; [|split].
    + apply StronglySorted_merge_sort; apply _.
    + intros e. apply Hrows.
    + intros _ _ e. apply Hrows.
Qed.

Lemma membership_changes_window_witness :
  StronglySorted by_stream
    [mkEvent "e2" "!R" "m.room.member" (Some "@u:hs") false 2 2 2]
  /\ forall e, e ∈ [mkEvent "e2" "!R" "m.room.member" (Some "@u:hs") false 2 2 2] ->
       e ∈ bridged_room "!R" /\ (event_id e, "@u:hs") ∈ [("e2", "@u:hs")]
       /\ stream_ordering e <= 3 /\ True.
Proof.
  destruct (membership_changes_window (bridged_room "!R") always_changed
              [("e2", "@u:hs")] "@u:hs" None "s3" empty_world
              (get_membership_changes_for_user (bridged_room "!R") always_changed
                 [("e2", "@u:hs")] "@u:hs" None "s3" empty_world).2
              [mkEvent "e2" "!R" "m.room.member" (Some "@u:hs") false 2 2 2]
              (mkToken None 3) None) as (Hs & Hq & _).
  - apply (bool_decide_unpack _). vm_compute. exact I.
  - reflexivity.
  - reflexivity.
  - vm_compute. reflexivity.
  - split; [exact Hs | exact Hq].
Defined.

(** ** Cursors of returned events *)

Lemma paginate_inv (db : list EventRow) (room from_key : string)
  (to_key : option string) (direction : string) (limit : Z) (w w' : world)
  (evs : list EventRow) (tok : string) :
  paginate_room_events db room from_key to_key direction limit w
  = (Return (evs, tok), w') ->
  exists bounds,
    let rows := paginate_rows db room bounds
                  (if String.eqb direction "b" then DESC else ASC) limit in
    evs = _get_events_txn db (event_id <$> rows)
    /\ metadata w' = _set_before_and_after evs rows true (metadata w).
Proof.
  unfold paginate_room_events. run_monad. intros H.
  destruct (parse from_key) as [e|ft]; simpl in H; [done|].
  destruct to_key as [[|c k]|]; simpl in H.
  - injection H as <- <- <-. eauto.
  - destruct (parse (String c k)) as [e|tt]; simpl in H; [done|].
    injection H as <- <- <-. eauto.
  - injection H as <- <- <-. eauto.
Qed.

Lemma cursors_around (topo : option Z) (e : EventRow) :
  match topo with Some t => t = topological_ordering e | None => True end ->
  strictly_after (mkToken topo (stream_ordering e - 1)) e
  /\ ~ at_or_before (mkToken topo (stream_ordering e - 1)) e
  /\ at_or_before (mkToken topo (stream_ordering e)) e
  /\ ~ strictly_after (mkToken topo (stream_ordering e)) e.
Proof.
  unfold strictly_after, at_or_before, lex_lt, lex_le, position.
  destruct topo as [t|]; simpl; lia.
Qed.

(** X16: every event that [paginate_room_events] returns carries cursors made
    from its own depth and stream_ordering: [before] reads back as the
    topological token (depth, stream_ordering - 1), [after] as (depth,
    stream_ordering), and [order] is (depth, stream_ordering).  When the
    depth is the topological_ordering of the event, the event lies strictly
    after its [before] cursor and at or before its [after] cursor: the two
    cursors are the positions just before and just after the event. *)
Theorem paginate_cursors (db : list EventRow) (room from_key : string)
  (to_key : option string) (direction : string) (limit : Z) (w w' : world)
  (evs : list EventRow) (tok : string) (e : EventRow) :
  NoDup (event_id <$> db) ->
  paginate_room_events db room from_key to_key direction limit w
  = (Return (evs, tok), w') ->
  e ∈ evs ->
  exists m,
    metadata w' !! event_id e = Some m
    /\ parse (before m) = inr (mkToken (Some (depth e)) (stream_ordering e - 1))
    /\ parse (after m) = inr (mkToken (Some (depth e)) (stream_ordering e))
    /\ order m = (depth e, stream_ordering e)
    /\ (depth e = topological_ordering e ->
        forall b a, parse (before m) = inr b -> parse (after m) = inr a ->
          strictly_after b e /\ ~ at_or_before b e
          /\ at_or_before a e /\ ~ strictly_after a e).
Proof.
  intros Hkey (bounds & Hevs & Hmeta)%paginate_inv He.
  rewrite paginate_rows_select in Hevs, Hmeta.
  rewrite get_events_of_submseteq in Hevs by (done || apply select_submseteq).
  subst evs. rewrite Hmeta.
  exists (annotation true e e). split.
  - apply set_before_and_after_self; [|done].
    apply (rows_of_table_injective db); [done|].
    intros r Hr. eapply elem_of_submseteq; [exact Hr | apply select_submseteq].
  - unfold annotation. cbn [before after order].
    rewrite !parse_token_str. split; [done|]. split; [done|]. split.
    + f_equal. by destruct (Z.eqb_spec (depth e) 0).
    + intros Hd b a [= <-] [= <-]. apply cursors_around. simpl. done.
Qed.

Lemma paginate_cursors_witness :
  exists m,
    metadata (paginate_room_events (seed_room "!R") "!R" "t5-5" None "b" 2
                empty_world).2 !! "e4" = Some m
    /\ parse (before m) = inr (mkToken (Some 4) 3)
    /\ parse (after m) = inr (mkToken (Some 4) 4)
    /\ order m = (4, 4).
Proof.
  destruct (paginate_cursors (seed_room "!R") "!R" "t5-5" None "b" 2 empty_world
              (paginate_room_events (seed_room "!R") "!R" "t5-5" None "b" 2
                 empty_world).2
              (seed_event "!R" <$> [5; 4]) "t4-3" (seed_event "!R" 4))
    as (m & Hm & Hb & Ha & Ho & _).
  - apply (bool_decide_unpack _). vm_compute. exact I.
  - vm_compute. reflexivity.
  - right. left.
  - exists m. auto.
Defined.

(** X17: every event that [get_room_events_stream_for_room] returns carries
    cursors made from its own row: with a [from_key] they are stream tokens,
    [before] reads back as the stream token of its stream_ordering less one
    and [after] as that of its stream_ordering, and [order] is (0,
    stream_ordering); without a [from_key] they are topological tokens made
    with the depth of the event.  In the first case the event lies strictly
    after its [before] cursor and at or before its [after] cursor. *)
Theorem stream_for_room_cursors (db : list EventRow) (cache : string -> Z -> bool)
  (room : string) (from_key : option string) (to_key : string) (limit : Z)
  (order_ : sort_order) (w w' : world) (evs : list EventRow)
  (key : option string) (e : EventRow) :
  NoDup (event_id <$> db) ->
  get_room_events_stream_for_room db cache room from_key to_key limit order_ w
  = (Return (evs, key), w') ->
  e ∈ evs ->
  let topo := match from_key with Some _ => None | None => Some (depth e) end in
  exists m,
    metadata w' !! event_id e = Some m
    /\ parse (before m) = inr (mkToken topo (stream_ordering e - 1))
    /\ parse (after m) = inr (mkToken topo (stream_ordering e))
    /\ order m = (match from_key with Some _ => 0 | None => depth e end,
                  stream_ordering e)
    /\ (is_Some from_key ->
        strictly_after (mkToken topo (stream_ordering e - 1)) e
        /\ at_or_before (mkToken topo (stream_ordering e)) e).
Proof.
  intros Hkey Hrun He topo.
  assert (Hshape : exists rows,
            rows ⊆+ db /\ e ∈ rows
            /\ metadata w'
               = _set_before_and_after rows rows
                   (match from_key with None => true | Some _ => false end)
                   (metadata w)).
  { revert Hrun. unfold get_room_events_stream_for_room. run_monad.
    destruct from_key as [k|].
    - destruct (parse_stream_token k) as [?|ft]; simpl; [done|].
      destruct (parse_stream_token to_key) as [?|tt]; simpl; [done|].
      case_bool_decide.
      { intros [= <- _ _]. by apply elem_of_nil in He. }
      assert (Hsub : stream_rows db room (stream ft) (stream tt) limit order_ ⊆+ db)
        by apply select_submseteq.
      rewrite (get_events_of_submseteq db Hkey _ Hsub).
      assert (Hrun : forall h,
                (Return
                   (match order_ with
                    | ASC => stream_rows db room (stream ft) (stream tt) limit order_
                    | DESC => reverse (stream_rows db room (stream ft) (stream tt)
                                         limit order_)
                    end,
                    match stream_rows db room (stream ft) (stream tt) limit order_ with
                    | [] => Some k
                    | _ :: _ =>
                        Some ("s" +:+ pretty
                                (py_min (stream_ordering
                                           <$> stream_rows db room (stream ft)
                                                 (stream tt) limit order_)))
                    end),
                 mkWorld
                   (_set_before_and_after
                      (stream_rows db room (stream ft) (stream tt) limit order_)
                      (stream_rows db room (stream ft) (stream tt) limit order_)
                      false (metadata w)) h)
                = (Return (evs, key), w') ->
                exists rows, rows ⊆+ db /\ e ∈ rows
                  /\ metadata w' = _set_before_and_after rows rows false (metadata w)).
      { intros h [= <- _ <-]. eexists. split; [exact Hsub|]. split; [|done].
        destruct order_; [done | by apply elem_of_reverse]. }
      destruct (stream ft =? 0); simpl; [apply Hrun|].
      destruct (cache room (stream ft)); simpl; [apply Hrun|].
      intros [= <- _ _]. by apply elem_of_nil in He.
    - destruct (parse_stream_token to_key) as [?|tt]; simpl; [done|].
      assert (Hsub : topological_rows db room (stream tt) limit order_ ⊆+ db)
        by apply select_submseteq.
      rewrite (get_events_of_submseteq db Hkey _ Hsub).
      intros [= <- _ <-]. eexists. split; [exact Hsub|]. split; [|done].
      destruct order_; [done | by apply elem_of_reverse]. }
  destruct Hshape as (rows & Hsub & Hin & Hmeta).
  exists (annotation (match from_key with None => true | Some _ => false end) e e).
  split.
  - rewrite Hmeta. apply set_before_and_after_self; [|done].
    apply (rows_of_table_injective db); [done|].
    intros r Hr. by eapply elem_of_submseteq.
  - unfold annotation, topo. cbn [before after order].
    rewrite !parse_token_str.
    destruct from_key as [k|]; (split; [done|]); (split; [done|]); split.
    + done.
    + intros _. destruct (cursors_around None e I) as (H1 & _ & H3 & _). done.
    + f_equal. by destruct (Z.eqb_spec (depth e) 0).
    + intros [? [=]].
Qed.

Lemma stream_for_room_cursors_witness :
  exists m,
    metadata (get_room_events_stream_for_room (seed_room "!R") always_changed "!R"
                (Some "s2") "s5" 100 DESC empty_world).2 !! "e4" = Some m
    /\ parse (before m) = inr (mkToken None 3)
    /\ parse (after m) = inr (mkToken None 4)
    /\ order m = (0, 4).
Proof.
  destruct (stream_for_room_cursors (seed_room "!R") always_changed "!R"
              (Some "s2") "s5" 100 DESC empty_world
              (get_room_events_stream_for_room (seed_room "!R") always_changed "!R"
                 (Some "s2") "s5" 100 DESC empty_world).2
              (seed_event "!R" <$> [3; 4; 5]) (Some "s3") (seed_event "!R" 4))
    as (m & Hm & Hb & Ha & Ho & _).
  - apply (bool_decide_unpack _). vm_compute. exact I.
  - vm_compute. reflexivity.
  - right. left.
  - exists m. auto.
Defined.

(** ** Tokens of the stream head and of single events *)

Lemma sql_max_spec (xs : list Z) :
  match sql_max xs with
  | Some m => m ∈ xs /\ forall y, y ∈ xs -> y <= m
  | None => xs = []
  end.
Proof.
  destruct xs as [|x xs]; [done|]. unfold sql_max.
  apply py_max_spec. done.
Qed.



(** X19: [get_max_topological_token_for_stream_and_room] returns the greatest
    topological_ordering among the events of the room, outliers included,
    whose stream_ordering is strictly below the given position; when the
    room has no such event it returns NULL, not 0. *)
Theorem max_topological_for_stream_and_room (db : list EventRow) (room : string)
  (stream_key : Z) (w : world) :
  let qualifies r :=
    r ∈ db /\ room_id r = room /\ stream_ordering r < stream_key in
  match (get_max_topological_token_for_stream_and_room db room stream_key w).1 with
  | Return (Some m) =>
      (exists r, qualifies r /\ topological_ordering r = m)
      /\ forall r, qualifies r -> topological_ordering r <= m
  | Return None => forall r, ~ qualifies r
  | Raise _ => False
  end.
Proof.
  intros qualifies. unfold get_max_topological_token_for_stream_and_room.
  run_monad.
  set (P := fun r => String.eqb (room_id r) room && (stream_ordering r <? stream_key)).
  assert (HP : forall r, r ∈ List.filter P db <-> qualifies r).
  { intros r. unfold P, qualifies.
    rewrite filter_elem_of, andb_true_iff, String.eqb_eq, Z.ltb_lt. tauto. }
  pose proof (sql_max_spec (topological_ordering <$> List.filter P db)) as Hmax.
  destruct (sql_max _) as [m|].
  - destruct Hmax as [Hin Hall]. split.
    + apply list_elem_of_fmap in Hin as (r & -> & Hr). exists r.
      split; [by apply HP | done].
    + intros r Hr. apply Hall, list_elem_of_fmap_2. by apply HP.
  - apply fmap_nil_inv in Hmax. intros r Hr%HP. rewrite Hmax in Hr.
    by apply elem_of_nil in Hr.
Qed.

Lemma max_topological_for_stream_and_room_witness :
  (get_max_topological_token_for_stream_and_room (seed_room "!R") "!R" 4
     empty_world).1 = Return (Some 3)
  /\ (get_max_topological_token_for_stream_and_room (seed_room "!R") "!R" 1
        empty_world).1 = Return None.
Proof.
  pose proof (max_topological_for_stream_and_room (seed_room "!R") "!R" 4
                empty_world) as H4.
  pose proof (max_topological_for_stream_and_room (seed_room "!R") "!R" 1
                empty_world) as H1.
  split; vm_compute; reflexivity.
Defined.



(** ** The annotator on arbitrary batches *)

(** X21: what [_set_before_and_after] leaves under every event id, for any
    two lists, with repeated events and lists of different lengths allowed.
    The annotation under an id is the one of the last pair of
    [zip(events, rows)] whose event has that id; an id no paired event carries
    keeps what it had, which includes the events beyond the length of
    [rows]. *)
Theorem set_before_and_after_last_wins (events rows : list EventRow)
  (topo_order : bool) (h : gmap string InternalMetadata) (k : string) :
  _set_before_and_after events rows topo_order h !! k
  = match list_find (fun er : EventRow * EventRow => event_id er.1 = k)
            (reverse (zip events rows)) with
    | Some (_, (e, r)) => Some (annotation topo_order e r)
    | None => h !! k
    end.
Proof.
  unfold _set_before_and_after.
  induction (zip events rows) as [|[e r] l IH] using rev_ind; [done|].
  rewrite fold_left_app, reverse_snoc. simpl.
  destruct (decide (event_id e = k)) as [<-|Hne].
  - by rewrite lookup_insert_eq.
  - rewrite lookup_insert_ne by done. rewrite IH.
    by destruct (list_find _ (reverse l)) as [[i [e' r']]|].
Qed.

(** ** Builders that only ask for dependencies *)

Section Recipes.

Context {V : Type}.
Variable builders : string -> option (Server.builder V).
Variable cls : string.
Hypothesis Hrecipes : recipes builders.

Lemma run_recipe_inv (get : string -> Server.HomeServer V ->
                            Server.outcome V * Server.HomeServer V)
  (r : recipe V) (hs : Server.HomeServer V) :
  (forall d hs0, get_inv builders d hs0 (get d hs0)) ->
  Server.attrs hs ⊆ Server.attrs (run_recipe r get hs).2
  /\ Server._building hs ⊆ Server._building (run_recipe r get hs).2
  /\ (forall k, is_Some (Server._building hs !! k) ->
        Server.attrs hs !! k = None ->
        Server.attrs (run_recipe r get hs).2 !! k = None)
  /\ (forall v, (run_recipe r get hs).1 = Server.Done v ->
        Server._building (run_recipe r get hs).2 = Server._building hs).
Proof.
  intros Hget. revert hs. induction r as [v|d k IH|e]; intros hs; simpl.
  - done.
  - destruct (Hget d hs) as (Ha & Hb & Hk & Hout).
    destruct (get d hs) as [[v|e|] hs1]; simpl in *.
    + destruct Hout as [Hsame _].
      destruct (IH v hs1) as (Ha' & Hb' & Hk' & Hout').
      split; [by etrans|]. split; [by etrans|]. split.
      * intros x Hx Hnone. apply Hk'; [|by apply Hk].
        by rewrite Hsame.
      * intros v' Hv'. rewrite (Hout' v' Hv'). done.
    + done.
    + done.
  - done.
Qed.

Lemma get_recipe_inv (fuel : nat) (d : string) (hs : Server.HomeServer V) :
  get_inv builders d hs (Server._get builders cls fuel d hs).
Proof.
  revert d hs. induction fuel as [|fuel IH]; intros d hs.
  { by repeat split. }
  unfold get_inv. simpl.
  destruct (Server.attrs hs !! d) as [v|] eqn:Hattr; [by repeat split|].
  destruct (builders d) as [build|] eqn:Hb.
  2: { simpl. repeat split; try done. }
  destruct (Server._building hs !! d) as [z|] eqn:Hmark.
  { simpl. repeat split; try done. }
  destruct (Hrecipes d build Hb) as [r ->].
  destruct (run_recipe_inv (Server._get builders cls fuel) r (Server.mark hs d) IH)
    as (Ha & Hbd & Hk & Hout).
  assert (Hsub : Server._building hs ⊆ Server._building (Server.mark hs d)).
  { simpl. by apply insert_subseteq. }
  assert (Hkeep : forall k, is_Some (Server._building hs !! k) ->
            Server.attrs hs !! k = None ->
            Server.attrs
              (run_recipe r (Server._get builders cls fuel) (Server.mark hs d)).2
            !! k = None).
  { intros k [z Hz] Hnone. apply Hk; [|done].
    exists z. by apply (lookup_weaken _ _ _ _ Hz). }
  destruct (run_recipe r (Server._get builders cls fuel) (Server.mark hs d))
    as [[dep|e|] hs2] eqn:Hrun; simpl in *.
  - pose proof (Hout dep eq_refl) as Hmarks.
    rewrite Hmarks, lookup_insert_eq. simpl. rewrite Hmarks.
    split; [|split; [|split; [|split]]].
    + by apply insert_subseteq_r.
    + by rewrite delete_insert_id.
    + intros k Hmarked Hnone.
      destruct (decide (k = d)) as [->|Hne].
      { destruct Hmarked as [z Hz]. congruence. }
      rewrite lookup_insert_ne by done. by apply Hkeep.
    + by rewrite delete_insert_id.
    + apply lookup_insert_eq.
  - split; [done|]. split; [by etrans|]. split; [done|]. intros _ _. split.
    + exists 1. apply (lookup_weaken _ _ _ _ (lookup_insert_eq _ _ _) Hbd).
    + apply Hk; [|done]. rewrite lookup_insert_eq. by eexists.
  - split; [done|]. split; [by etrans|]. done.
Qed.

End Recipes.

(** X22: accessors of a class whose builders only ask for dependencies.
    A successful accessor call leaves [_building] exactly as it found it,
    keeps every attribute, and leaves the requested dependency stored as an
    attribute; and when the builder of an unset, unmarked dependency
    returns, the [del hs._building[depname]] finds its key, so the accessor
    returns the instance with the marks as before the call. *)
Theorem recipe_accessor_restores_marks {V : Type}
  (builders : string -> option (Server.builder V)) (cls : string) :
  recipes builders ->
  (forall fuel d hs v hs',
     Server._get builders cls fuel d hs = (Server.Done v, hs') ->
     Server._building hs' = Server._building hs
     /\ Server.attrs hs ⊆ Server.attrs hs'
     /\ Server.attrs hs' !! d = Some v)
  /\ (forall fuel d build hs dep hs2,
        builders d = Some build ->
        Server.attrs hs !! d = None ->
        Server._building hs !! d = None ->
        build (Server._get builders cls fuel) (Server.mark hs d)
        = (Server.Done dep, hs2) ->
        Server._get builders cls (S fuel) d hs
        = (Server.Done dep,
           Server.mkHS (<[d := dep]> (Server.attrs hs2)) (Server._building hs))).
Proof.
  intros Hrecipes. split.
  - intros fuel d hs v hs' Hrun.
    pose proof (get_recipe_inv builders cls Hrecipes fuel d hs) as Hinv.
    unfold get_inv in Hinv. rewrite Hrun in Hinv. simpl in Hinv.
    destruct Hinv as (Ha & _ & _ & Hsame & Hd). done.
  - intros fuel d build hs dep hs2 Hb Hattr Hmark Hrun.
    destruct (Hrecipes d build Hb) as [r ->].
    destruct (run_recipe_inv builders (Server._get builders cls fuel) r
                (Server.mark hs d) (get_recipe_inv builders cls Hrecipes fuel))
      as (_ & _ & _ & Hout).
    rewrite Hrun in Hout. simpl in Hout. pose proof (Hout dep eq_refl) as Hmarks.
    simpl. rewrite Hattr, Hb, Hmark, Hrun. simpl.
    rewrite Hmarks, lookup_insert_eq. unfold Server.unmark. simpl.
    by rewrite Hmarks, delete_insert_id.
Qed.

Lemma factory_builders_recipes : recipes factory_builders.
Proof.
  intros d b. unfold factory_builders.
  destruct (String.eqb d "event_builder_factory"); [|done].
  intros Hb. apply (inj Some) in Hb. eexists. symmetry. exact Hb.
Qed.

Lemma recipe_accessor_restores_marks_witness :
  exists v hs',
    Server._get factory_builders "HomeServer" 2 "event_builder_factory"
      constructed_server = (Server.Done v, hs')
    /\ Server._building hs' = Server._building constructed_server
    /\ Server.attrs constructed_server ⊆ Server.attrs hs'
    /\ Server.attrs hs' !! "event_builder_factory" = Some v.
Proof.
  destruct (Server._get factory_builders "HomeServer" 2 "event_builder_factory"
              constructed_server) as [[v|e|] hs'] eqn:Hrun;
    [|vm_compute in Hrun; discriminate Hrun..].
  exists v, hs'. split; [reflexivity|].
  destruct (recipe_accessor_restores_marks factory_builders "HomeServer"
              factory_builders_recipes) as [Hok _].
  exact (Hok _ _ _ _ _ Hrun).
Defined.

(** X23: a failed build is not undone.  With builders that only ask for
    dependencies, when the accessor of a dependency that is no attribute and
    has a builder fails, whatever the error, the dependency is left in
    [_building] and is still no attribute, so every later call of that
    accessor fails with the cyclic dependency error and changes nothing. *)
Theorem failed_build_stays_marked {V : Type}
  (builders : string -> option (Server.builder V)) (cls : string)
  (fuel : nat) (d : string) (hs hs' : Server.HomeServer V) (e : exn) :
  recipes builders ->
  is_Some (builders d) ->
  Server.attrs hs !! d = None ->
  Server._get builders cls fuel d hs = (Server.Failed e, hs') ->
  is_Some (Server._building hs' !! d)
  /\ Server.attrs hs' !! d = None
  /\ forall n,
       Server._get builders cls (S n) d hs'
       = (Server.Failed (ValueError ("Cyclic dependency while building " +:+ d)),
          hs').
Proof.
  intros Hrecipes Hb Hattr Hrun.
  pose proof (get_recipe_inv builders cls Hrecipes fuel d hs) as Hinv.
  unfold get_inv in Hinv. rewrite Hrun in Hinv. simpl in Hinv.
  destruct Hinv as (_ & _ & _ & Hfail).
  destruct (Hfail Hattr Hb) as [[z Hz] Hnone].
  split; [by exists z|]. split; [done|].
  intros n. simpl. destruct Hb as [b Hb]. by rewrite Hnone, Hb, Hz.
Qed.

Lemma failed_build_stays_marked_witness :
  exists hs',
    Server._get factory_builders "HomeServer" 2 "event_builder_factory"
      fresh_server
    = (Server.Failed
         (NotImplementedError "HomeServer has no clock nor a builder for it"), hs')
    /\ Server._get factory_builders "HomeServer" 2 "event_builder_factory" hs'
       = (Server.Failed
            (ValueError "Cyclic dependency while building event_builder_factory"),
          hs').
Proof.
  exists (Server.mark fresh_server "event_builder_factory").
  assert (Hrun : Server._get factory_builders "HomeServer" 2
                   "event_builder_factory" fresh_server
                 = (Server.Failed
                      (NotImplementedError
                         "HomeServer has no clock nor a builder for it"),
                    Server.mark fresh_server "event_builder_factory")).
  { vm_compute. reflexivity. }
  split; [exact Hrun|].
  apply (failed_build_stays_marked factory_builders "HomeServer" 2
           "event_builder_factory" fresh_server
           (Server.mark fresh_server "event_builder_factory")
           (NotImplementedError "HomeServer has no clock nor a builder for it")
           factory_builders_recipes);
    [by eexists | reflexivity | exact Hrun].
Defined.

(** ** Circles of builders *)

Lemma circle_closes {V : Type} (builders : string -> option (Server.builder V))
  (cls d0 : string) (l : list string) :
  forall (d : string) (hs : Server.HomeServer V) (n : nat),
    NoDup (d :: l) ->
    (forall x, x ∈ d :: l ->
       Server.attrs hs !! x = None /\ Server._building hs !! x = None) ->
    Server.attrs hs !! d0 = None ->
    is_Some (builders d0) ->
    is_Some (Server._building hs !! d0) ->
    (forall i x, (d :: l) !! i = Some x ->
       exists y k, ((l ++ [d0])%list) !! i = Some y
                   /\ builders x = Some (run_recipe (Need y k))) ->
    Server._get builders cls (S (S (length l)) + n) d hs
    = (Server.Failed (ValueError ("Cyclic dependency while building " +:+ d0)),
       fold_left Server.mark (d :: l) hs).
Proof.
  induction l as [|y l IH]; intros d hs n Hnd Hfree Hattr0 [b0 Hb0] [z0 Hz0] Hchain.
  - destruct (Hfree d) as [Ha Hm]; [left|].
    destruct (Hchain 0%nat d eq_refl) as (y & k & [= <-] & Hb).
    change (S (S (length [])) + n)%nat with (S (S n)).
    cbn [Server._get]. rewrite Ha, Hb, Hm. cbn [run_recipe Server._get].
    cbn [Server.attrs Server._building Server.mark]. rewrite Hattr0, Hb0.
    destruct (decide (d = d0)) as [->|Hne].
    + by rewrite lookup_insert_eq.
    + rewrite lookup_insert_ne by done. by rewrite Hz0.
  - destruct (Hfree d) as [Ha Hm]; [left|].
    destruct (Hchain 0%nat d eq_refl) as (y' & k & [= <-] & Hb).
    change (S (S (length (y :: l))) + n)%nat with (S (S (S (length l)) + n)).
    cbn [Server._get]. rewrite Ha, Hb, Hm. cbn [run_recipe].
    apply NoDup_cons in Hnd as [Hd Hnd].
    rewrite (IH y (Server.mark hs d) n); [done|done|..].
    + intros x Hx. destruct (Hfree x) as [Hax Hmx]; [by right|].
      split; [done|]. simpl. rewrite lookup_insert_ne; [done|].
      intros ->. by destruct Hd.
    + done.
    + by eexists.
    + simpl. destruct (decide (d = d0)) as [->|Hne].
      * rewrite lookup_insert_eq. by eexists.
      * rewrite lookup_insert_ne by done. by eexists.
    + intros i x Hx. apply (Hchain (S i) x Hx).
Qed.

(** X24: a circle of builders is detected, whatever its length.  Take
    distinct dependencies d0, d1, ..., dn, none of them an attribute or in
    [_building], where the builder of each begins by asking for the next and
    the builder of dn begins by asking for d0.  The accessor of d0 then
    fails with the cyclic dependency error that names d0, and leaves every
    dependency of the circle in [_building]. *)
Theorem circular_dependency_detected {V : Type}
  (builders : string -> option (Server.builder V)) (cls d0 : string)
  (ds : list string) (hs : Server.HomeServer V) (n : nat) :
  NoDup (d0 :: ds) ->
  (forall x, x ∈ d0 :: ds ->
     Server.attrs hs !! x = None /\ Server._building hs !! x = None) ->
  (forall i x, (d0 :: ds) !! i = Some x ->
     exists y k, ((ds ++ [d0])%list) !! i = Some y
                 /\ builders x = Some (run_recipe (Need y k))) ->
  Server._get builders cls (S (S (length ds)) + n) d0 hs
  = (Server.Failed (ValueError ("Cyclic dependency while building " +:+ d0)),
     fold_left Server.mark (d0 :: ds) hs).
Proof.
  intros Hnd Hfree Hchain.
  destruct (Hfree d0) as [Ha Hm]; [left|].
  destruct (Hchain 0%nat d0 eq_refl) as (y & k & Hy & Hb).
  destruct ds as [|y1 l].
  - injection Hy as <-.
    change (S (S (length [])) + n)%nat with (S (S n)).
    cbn [Server._get]. rewrite Ha, Hb, Hm. cbn [run_recipe Server._get].
    cbn [Server.attrs Server._building Server.mark].
    by rewrite Ha, Hb, lookup_insert_eq.
  - injection Hy as <-.
    change (S (S (length (y1 :: l))) + n)%nat with (S (S (S (length l)) + n)).
    cbn [Server._get]. rewrite Ha, Hb, Hm. cbn [run_recipe].
    apply NoDup_cons in Hnd as [Hd Hnd].
    rewrite (circle_closes builders cls d0 l y1 (Server.mark hs d0) n); [done|done|..].
    + intros x Hx. destruct (Hfree x) as [Hax Hmx]; [by right|].
      split; [done|]. simpl. rewrite lookup_insert_ne; [done|].
      intros ->. by destruct Hd.
    + done.
    + by eexists.
    + simpl. rewrite lookup_insert_eq. by eexists.
    + intros i x Hx. apply (Hchain (S i) x Hx).
Qed.

Lemma circular_dependency_detected_witness :
  Server._get circular_builders "HomeServer" 4 "auth" fresh_server
  = (Server.Failed (ValueError "Cyclic dependency while building auth"),
     Server.mark (Server.mark (Server.mark fresh_server "auth") "handlers")
       "notifier").
Proof.
  apply (circular_dependency_detected circular_builders "HomeServer" "auth"
           ["handlers"; "notifier"] fresh_server 0).
  - apply (bool_decide_unpack _). vm_compute. exact I.
  - intros x Hx. split; reflexivity.
  - intros [|[|[|i]]] x Hx; simpl in Hx; try discriminate Hx;
      injection Hx as <-.
    + exists "handlers", (fun _ => Build "Auth(hs)"). split; reflexivity.
    + exists "notifier", (fun _ => Build "Handlers(hs)"). split; reflexivity.
    + exists "auth", (fun _ => Build "Notifier(hs)"). split; reflexivity.
Defined.

(** ** Identifiers of this server *)

Lemma split_colon_first (localpart rest : string) :
  colon_free localpart = true ->
  split_colon (localpart +:+ String ":" rest) = (localpart, Some rest).
Proof.
  induction localpart as [|c s IH]; [done|].
  rewrite append_cons. simpl.
  intros [Hc Hs]%andb_true_iff. apply negb_true_iff in Hc. rewrite Hc.
  by rewrite (IH Hs).
Qed.

Lemma split_colon_absent (s : string) :
  colon_free s = true -> split_colon s = (s, None).
Proof.
  induction s as [|c s IH]; [done|]. simpl.
  intros [Hc Hs]%andb_true_iff. apply negb_true_iff in Hc. rewrite Hc.
  by rewrite (IH Hs).
Qed.

(** X25: [is_mine_id] compares with the host name everything after the
    first colon of the identifier, further colons included, so that a
    domain with a port is compared as a whole; on an identifier without a
    colon it raises an [IndexError]. *)
Theorem is_mine_id_first_colon (hostname localpart domain : string) :
  colon_free localpart = true ->
  is_mine_id hostname (localpart +:+ ":" +:+ domain)
  = inr (String.eqb domain hostname)
  /\ exists msg, is_mine_id hostname localpart = inl (IndexError msg).
Proof.
  intros Hfree. unfold is_mine_id. split.
  - change (":" +:+ domain) with (String ":" domain).
    by rewrite split_colon_first.
  - rewrite split_colon_absent by done. by eexists.
Qed.

Lemma is_mine_id_first_colon_witness :
  is_mine_id "example.com:8448" "@alice:example.com:8448" = inr true
  /\ is_mine_id "example.com" "@alice:example.com:8448" = inr false
  /\ exists msg, is_mine_id "example.com" "@alice" = inl (IndexError msg).
Proof.
  destruct (is_mine_id_first_colon "example.com:8448" "@alice" "example.com:8448"
              eq_refl) as [Hmine _].
  destruct (is_mine_id_first_colon "example.com" "@alice" "example.com:8448"
              eq_refl) as [Hother Hnone].
  split; [exact Hmine|]. split; [exact Hother|]. exact Hnone.
Defined.

(** ** The event builder factory *)

(** X26: [build_event_builder_factory] behind its accessor, on a home server
    where the factory is neither an attribute nor being built.  When the
    clock is an attribute, as the constructor leaves it, the accessor
    returns the factory made from that clock and the host name and stores it,
    and nothing else changes.  When there is neither a clock nor a builder
    for one, the accessor fails with the error of the clock accessor and the
    factory stays in [_building]. *)
Theorem event_builder_factory_accessor {V : Type}
  (builders : string -> option (Server.builder V)) (cls : string)
  (EventBuilderFactory : V -> string -> V) (hostname : string)
  (hs : Server.HomeServer V) (n : nat) :
  builders "event_builder_factory"
  = Some (run_recipe (build_event_builder_factory EventBuilderFactory hostname)) ->
  Server.attrs hs !! "event_builder_factory" = None ->
  Server._building hs !! "event_builder_factory" = None ->
  (forall clock, Server.attrs hs !! "clock" = Some clock ->
     Server._get builders cls (S (S n)) "event_builder_factory" hs
     = (Server.Done (EventBuilderFactory clock hostname),
        Server.setattr hs "event_builder_factory"
          (EventBuilderFactory clock hostname)))
  /\ (Server.attrs hs !! "clock" = None -> builders "clock" = None ->
      Server._get builders cls (S (S n)) "event_builder_factory" hs
      = (Server.Failed
           (NotImplementedError (cls +:+ " has no clock nor a builder for it")),
         Server.mark hs "event_builder_factory")).
Proof.
  intros Hb Hattr Hmark. split.
  - intros clock Hclock. cbn [Server._get]. rewrite Hattr, Hb, Hmark.
    cbn [run_recipe build_event_builder_factory Server._get].
    cbn [Server.attrs Server._building Server.mark Server.setattr].
    rewrite Hclock. cbn [run_recipe Server.attrs Server._building Server.setattr].
    unfold Server.unmark, Server.setattr, Server.mark. simpl.
    by rewrite lookup_insert_eq, delete_insert_id.
  - intros Hclock Hnone. cbn [Server._get]. rewrite Hattr, Hb, Hmark.
    cbn [run_recipe build_event_builder_factory Server._get].
    cbn [Server.attrs Server._building Server.mark].
    by rewrite Hclock, Hnone.
Qed.

Lemma event_builder_factory_accessor_witness :
  Server._get factory_builders "HomeServer" 2 "event_builder_factory"
    constructed_server
  = (Server.Done "EventBuilderFactory(Clock(), hs)",
     Server.setattr constructed_server "event_builder_factory"
       "EventBuilderFactory(Clock(), hs)").
Proof.
  destruct (event_builder_factory_accessor factory_builders "HomeServer"
              (fun clock hostname =>
                 "EventBuilderFactory(" +:+ clock +:+ ", " +:+ hostname +:+ ")")
              "hs" constructed_server 0 eq_refl eq_refl eq_refl) as [Hbuilt _].
  exact (Hbuilt "Clock()" eq_refl).
Defined.
